(** * Order hashing (LibOrder.sol) and the browser orderbook channel

    A shallow embedding of

    - [contracts/current/protocol/Exchange/libs/LibOrder.sol]: the [Order]
      struct, the two schema constants and [getOrderHash] (module
      [LibOrder]), and the [OrderInfo] struct with the bookkeeping of fills
      that the specification describes for it (module [StatusTracker]);
    - [connect/src/browser_ws_orderbook_channel.ts]: the subscription list
      of [BrowserWebSocketOrderbookChannel], [subscribe] and the routing of
      incoming websocket messages to the handlers (module
      [OrderbookChannel]).

    Bytes are [Byte.byte], Solidity's [uint256] and [address] are [Z] with
    their ranges written out, and [keccak256] is the EVM primitive, written
    here as an executable function so that digests can be evaluated. The
    definitions come first, the properties after them. *)

From Stdlib Require Import ZArith List Lia Bool.
From Stdlib.Strings Require Import String Ascii Byte.
From stdpp Require Import base option list strings gmap.
Import ListNotations.

Local Open Scope Z_scope.

(** A byte string: Solidity's [bytes], [bytes32] and the input of a hash. *)
Abbreviation bytes := (list byte).

(* ===================================================================== *)
(** ** The EVM primitive [keccak256] *)
(* ===================================================================== *)

Module Keccak.

(** Lanes are 64-bit words kept in [Z]; [w64] is the wrap-around. *)
Definition w64 (z : Z) : Z := Z.land z (Z.ones 64).

Definition rotl64 (z : Z) (n : Z) : Z :=
  w64 (Z.lor (Z.shiftl z n) (Z.shiftr z (64 - n))).

(** The state is 25 lanes, lane (x, y) at position [x + 5 * y]. *)
Definition lane (A : list Z) (x y : nat) : Z := nth (x + 5 * y)%nat A 0.

Definition rotation_offsets : list Z :=
  [ 0;  1; 62; 28; 27;
   36; 44;  6; 55; 20;
    3; 10; 43; 25; 39;
   41; 45; 15; 21;  8;
   18;  2; 61; 56; 14].

Definition round_constants : list Z :=
  [0x0000000000000001; 0x0000000000008082; 0x800000000000808A;
   0x8000000080008000; 0x000000000000808B; 0x0000000080000001;
   0x8000000080008081; 0x8000000000008009; 0x000000000000008A;
   0x0000000000000088; 0x0000000080008009; 0x000000008000000A;
   0x000000008000808B; 0x800000000000008B; 0x8000000000008089;
   0x8000000000008003; 0x8000000000008002; 0x8000000000000080;
   0x000000000000800A; 0x800000008000000A; 0x8000000080008081;
   0x8000000000008080; 0x0000000080000001; 0x8000000080008008].

Definition positions : list nat := seq 0 25.

Definition theta (A : list Z) : list Z :=
  let C := map (fun x => fold_left Z.lxor (map (lane A x) (seq 0 5)) 0)
               (seq 0 5) in
  let D := map (fun x => Z.lxor (nth ((x + 4) mod 5)%nat C 0)
                                (rotl64 (nth ((x + 1) mod 5)%nat C 0) 1))
               (seq 0 5) in
  map (fun i => Z.lxor (nth i A 0) (nth (i mod 5)%nat D 0)) positions.

(** rho and pi together: the lane written at (x, y) is the lane read at
    ((x + 3 y) mod 5, x), rotated by that lane's offset. *)
Definition rho_pi (A : list Z) : list Z :=
  map (fun i =>
         let x := (i mod 5)%nat in
         let y := (i / 5)%nat in
         let sx := ((x + 3 * y) mod 5)%nat in
         let sy := x in
         rotl64 (lane A sx sy) (nth (sx + 5 * sy)%nat rotation_offsets 0))
      positions.

Definition chi (B : list Z) : list Z :=
  map (fun i =>
         let x := (i mod 5)%nat in
         let y := (i / 5)%nat in
         Z.lxor (lane B x y)
                (Z.ldiff (lane B ((x + 2) mod 5)%nat y)
                         (lane B ((x + 1) mod 5)%nat y)))
      positions.

Definition iota (rc : Z) (A : list Z) : list Z :=
  match A with
  | a :: A' => Z.lxor a rc :: A'
  | [] => []
  end.

Definition round (A : list Z) (rc : Z) : list Z :=
  iota rc (chi (rho_pi (theta A))).

Definition keccak_f (A : list Z) : list Z :=
  fold_left round round_constants A.

(** Bytes and lanes, little-endian. *)
Definition byte_to_Z (b : byte) : Z := Z.of_N (Byte.to_N b).

Definition byte_of_Z (z : Z) : byte :=
  match Byte.of_N (Z.to_N (z mod 256)) with
  | Some b => b
  | None => x00
  end.

Definition lane_of_bytes (bs : bytes) : Z :=
  fold_right (fun b acc => byte_to_Z b + 256 * acc) 0 bs.

Definition lane_to_bytes (z : Z) : bytes :=
  map (fun i => byte_of_Z (Z.shiftr z (8 * Z.of_nat i))) (seq 0 8).

(** The rate of keccak256 is 136 bytes (17 lanes). *)
Definition rate : nat := 136.

(** Keccak's pad10*1 with no domain bits: 0x01, zeros, and 0x80 in the
    last byte of the block (0x81 when one byte is missing). *)
Definition pad (m : bytes) : bytes :=
  let missing := (rate - length m mod rate)%nat in
  if (missing =? 1)%nat then m ++ [x81]
  else m ++ [x01] ++ repeat x00 (missing - 2) ++ [x80].

Definition xor_block (A : list Z) (block : bytes) : list Z :=
  map (fun i =>
         if (i <? 17)%nat
         then Z.lxor (nth i A 0)
                     (lane_of_bytes (firstn 8 (skipn (8 * i) block)))
         else nth i A 0)
      positions.

Fixpoint absorb (blocks : nat) (A : list Z) (m : bytes) : list Z :=
  match blocks with
  | O => A
  | S n => absorb n (keccak_f (xor_block A (firstn rate m))) (skipn rate m)
  end.

Definition squeeze (A : list Z) : bytes :=
  flat_map (fun i => lane_to_bytes (nth i A 0)) (seq 0 4).

Definition keccak256 (m : bytes) : bytes :=
  let p := pad m in
  squeeze (absorb (length p / rate) (repeat 0 25) p).

End Keccak.

(** Digests are evaluated by [vm_compute] only; proofs treat [keccak256]
    as a black box. *)
Global Opaque Keccak.keccak256.

(** Hexadecimal rendering of a byte string, for reading digests. *)
Definition hex_digit (n : N) : ascii :=
  match n with
  | 0 => "0" | 1 => "1" | 2 => "2" | 3 => "3" | 4 => "4" | 5 => "5"
  | 6 => "6" | 7 => "7" | 8 => "8" | 9 => "9" | 10 => "a" | 11 => "b"
  | 12 => "c" | 13 => "d" | 14 => "e" | _ => "f"
  end%N%char.

Fixpoint to_hex (bs : bytes) : string :=
  match bs with
  | [] => EmptyString
  | b :: bs' =>
      let n := Byte.to_N b in
      String (hex_digit (n / 16)) (String (hex_digit (n mod 16)) (to_hex bs'))
  end.

(* ===================================================================== *)
(** ** Tightly packed argument encoding *)
(* ===================================================================== *)

(** In Solidity 0.4.24 [keccak256(a, b, ...)] hashes the tightly packed
    encoding of its arguments: an [address] takes 20 bytes and a [uint256]
    32 bytes, both big-endian; [bytes32], [bytes] and string literals are
    laid down as they are, with no length prefix and no padding. *)
Module Abi.

Import Keccak.

Fixpoint le_bytes (n : nat) (z : Z) : bytes :=
  match n with
  | O => []
  | S k => byte_of_Z z :: le_bytes k (z / 256)
  end.

(** [n] bytes, most significant first, of [z] modulo [256 ^ n]. *)
Definition be_bytes (n : nat) (z : Z) : bytes := rev (le_bytes n z).

Definition le_decode (bs : bytes) : Z := lane_of_bytes bs.

Definition be_decode (bs : bytes) : Z := le_decode (rev bs).

Inductive value : Type :=
| VAddress (a : Z)
| VUint256 (n : Z)
| VBytes32 (h : bytes)
| VBytes (b : bytes)
| VString (s : string).

Definition encodeValue (v : value) : bytes :=
  match v with
  | VAddress a => be_bytes 20 a
  | VUint256 n => be_bytes 32 n
  | VBytes32 h => h
  | VBytes b => b
  | VString s => list_byte_of_string s
  end.

Definition encodePacked (vs : list value) : bytes :=
  flat_map encodeValue vs.

(** [slice off len bs]: the [len] bytes of [bs] that start at [off]. *)
Definition slice (off len : nat) (bs : bytes) : bytes :=
  firstn len (skipn off bs).

Fixpoint bytes_eqb (a b : bytes) : bool :=
  match a, b with
  | [], [] => true
  | x :: a', y :: b' => Byte.eqb x y && bytes_eqb a' b'
  | _, _ => false
  end.

End Abi.

(* ===================================================================== *)
(** ** LibOrder.sol *)
(* ===================================================================== *)

Module LibOrder.

Import Keccak Abi.

Definition is_address (a : Z) : Prop := 0 <= a < 2 ^ 160.
Definition is_uint256 (n : Z) : Prop := 0 <= n < 2 ^ 256.

Record Order : Type := mkOrder {
  makerAddress : Z;
  takerAddress : Z;
  feeRecipientAddress : Z;
  senderAddress : Z;
  makerAssetAmount : Z;
  takerAssetAmount : Z;
  makerFee : Z;
  takerFee : Z;
  expirationTimeSeconds : Z;
  salt : Z;
  makerAssetData : bytes;
  takerAssetData : bytes
}.

(** What the Solidity types of the struct's fields guarantee. *)
Definition valid_order (o : Order) : Prop :=
  is_address (makerAddress o) /\ is_address (takerAddress o) /\
  is_address (feeRecipientAddress o) /\ is_address (senderAddress o) /\
  is_uint256 (makerAssetAmount o) /\ is_uint256 (takerAssetAmount o) /\
  is_uint256 (makerFee o) /\ is_uint256 (takerFee o) /\
  is_uint256 (expirationTimeSeconds o) /\ is_uint256 (salt o).

Definition DOMAIN_SEPARATOR_SCHEMA_HASH : bytes :=
  keccak256 (encodePacked [VString "DomainSeparator(address contract)"]).

Definition ORDER_SCHEMA_HASH : bytes :=
  keccak256 (encodePacked
    [VString "Order(";
     VString "address makerAddress,";
     VString "address takerAddress,";
     VString "address feeRecipientAddress,";
     VString "address senderAddress,";
     VString "uint256 makerAssetAmount,";
     VString "uint256 takerAssetAmount,";
     VString "uint256 makerFee,";
     VString "uint256 takerFee,";
     VString "uint256 expirationTimeSeconds,";
     VString "uint256 salt,";
     VString "bytes makerAssetData,";
     VString "bytes takerAssetData,";
     VString ")"]).

(** *** Execution context

    What a call can observe besides its arguments: the address of the
    executing contract, the caller, the block time and the storage of the
    contract (LibOrder declares none of its own; contracts that inherit
    from it do). A function is a state transformer over the context, so
    that "does not write" is a statement and not a typing convention. *)
Record Context : Type := mkContext {
  this : Z;
  msg_sender : Z;
  block_timestamp : Z;
  storage : gmap Z Z
}.

Definition Exec (A : Type) : Type := Context -> A * Context.

Definition ret {A} (a : A) : Exec A := fun c => (a, c).

Definition bind {A B} (m : Exec A) (f : A -> Exec B) : Exec B :=
  fun c => let (a, c') := m c in f a c'.

Local Notation "'let!' x ':=' m 'in' k" := (bind m (fun x => k))
  (at level 10, x name, m at level 100, k at level 200).

(** [address(this)] *)
Definition address_this : Exec Z := fun c => (this c, c).

Definition sload (slot : Z) : Exec Z :=
  fun c => (default 0 (storage c !! slot), c).

Definition sstore (slot v : Z) : Exec unit :=
  fun c => (tt, mkContext (this c) (msg_sender c) (block_timestamp c)
                          (<[slot := v]> (storage c))).

(** The arguments of the inner [keccak256] of [getOrderHash]. *)
Definition orderFields (order : Order) : list value :=
  [VAddress (makerAddress order);
   VAddress (takerAddress order);
   VAddress (feeRecipientAddress order);
   VAddress (senderAddress order);
   VUint256 (makerAssetAmount order);
   VUint256 (takerAssetAmount order);
   VUint256 (makerFee order);
   VUint256 (takerFee order);
   VUint256 (expirationTimeSeconds order);
   VUint256 (salt order);
   VBytes32 (keccak256 (encodePacked [VBytes (makerAssetData order)]));
   VBytes32 (keccak256 (encodePacked [VBytes (takerAssetData order)]))].

Definition getOrderHash (order : Order) : Exec bytes :=
  let! self := address_this in
  let orderHash :=
    keccak256 (encodePacked
      [VBytes32 DOMAIN_SEPARATOR_SCHEMA_HASH;
       VBytes32 (keccak256 (encodePacked [VAddress self]));
       VBytes32 ORDER_SCHEMA_HASH;
       VBytes32 (keccak256 (encodePacked (orderFields order)))]) in
  ret orderHash.

(** The arguments of the outer [keccak256] of [getOrderHash], in a
    contract at address [v]. *)
Definition outerArguments (v : Z) (o : Order) : list value :=
  [VBytes32 DOMAIN_SEPARATOR_SCHEMA_HASH;
   VBytes32 (keccak256 (encodePacked [VAddress v]));
   VBytes32 ORDER_SCHEMA_HASH;
   VBytes32 (keccak256 (encodePacked (orderFields o)))].

(** The byte strings that [getOrderHash] feeds to [keccak256] for order
    [o] in a contract at address [v]: the two asset data, the instance
    address, the packed order fields and the packed outer arguments. *)
Definition hashedInputs (v : Z) (o : Order) : list bytes :=
  [makerAssetData o;
   takerAssetData o;
   encodePacked [VAddress v];
   encodePacked (orderFields o);
   encodePacked (outerArguments v o)].

(** [keccak256] has no collision among the byte strings of [l]. *)
Definition collision_free (l : list bytes) : Prop :=
  forall x y, In x l -> In y l -> keccak256 x = keccak256 y -> x = y.

(** The same, decided by hashing every element once. *)
Definition collision_freeb (l : list bytes) : bool :=
  let hashed := map (fun x => (x, keccak256 x)) l in
  forallb (fun p =>
    forallb (fun q =>
      implb (bytes_eqb (snd p) (snd q)) (bytes_eqb (fst p) (fst q)))
      hashed) hashed.

(** The ten fixed-width fields at their widths, in the order of the
    struct. *)
Definition fixedFieldEncoding (o : Order) : bytes :=
  be_bytes 20 (makerAddress o) ++ be_bytes 20 (takerAddress o) ++
  be_bytes 20 (feeRecipientAddress o) ++ be_bytes 20 (senderAddress o) ++
  be_bytes 32 (makerAssetAmount o) ++ be_bytes 32 (takerAssetAmount o) ++
  be_bytes 32 (makerFee o) ++ be_bytes 32 (takerFee o) ++
  be_bytes 32 (expirationTimeSeconds o) ++ be_bytes 32 (salt o).

Definition domainSchemaConstant : string :=
  "DomainSeparator(address contract)".

Definition orderSchemaConstant : string :=
  "Order(address makerAddress,address takerAddress,address feeRecipientAddress,address senderAddress,uint256 makerAssetAmount,uint256 takerAssetAmount,uint256 makerFee,uint256 takerFee,uint256 expirationTimeSeconds,uint256 salt,bytes makerAssetData,bytes takerAssetData,)".

(** *** The order hash in the words of the specification

    The specification's formula, kept apart from [getOrderHash] to be
    compared with it: a domain-separator hash
    H(H(domain-schema-constant) ‖ H(v)) comes first, followed by H(v),
    the order-schema hash and the hash of the field encoding. *)
Definition spec_domainSeparatorHash (v : Z) : bytes :=
  keccak256 (keccak256 (list_byte_of_string domainSchemaConstant) ++
             keccak256 (be_bytes 20 v)).

Definition spec_orderHash (v : Z) (o : Order) : bytes :=
  keccak256 (spec_domainSeparatorHash v ++
             keccak256 (be_bytes 20 v) ++
             keccak256 (list_byte_of_string orderSchemaConstant) ++
             keccak256 (fixedFieldEncoding o ++
                        keccak256 (makerAssetData o) ++
                        keccak256 (takerAssetData o))).

(** A sample order (amounts 1000 and 2000) and a sample context. *)
Definition sampleOrder : Order :=
  mkOrder 0x5409ed021d9299bf6814279a6a1411a7e866a631
          0
          0xa258b39954cef5cb142fd567a46cddb31a670124
          0
          1000 2000 10 20 1532563026 0x1234567890abcdef
          (list_byte_of_string "maker asset")
          (list_byte_of_string "taker asset").

Definition sampleContext : Context :=
  mkContext 0x1dc4c1cefef38a777b15aa20260a54e584b16c48
            0x5409ed021d9299bf6814279a6a1411a7e866a631 1532560000 ∅.

(** The same contract with another caller, block time and storage. *)
Definition busyContext : Context :=
  mkContext (this sampleContext) 77 1600000000 (<[3 := 9]> ∅).

(** A contract at another address. *)
Definition otherContext : Context :=
  mkContext 0x48bacb9266a570d521063ef5dd96e61686dbe788 0 0 ∅.

(** The sample order with the last byte of [makerAssetData] changed. *)
Definition tamperedOrder : Order :=
  mkOrder (makerAddress sampleOrder) (takerAddress sampleOrder)
          (feeRecipientAddress sampleOrder) (senderAddress sampleOrder)
          (makerAssetAmount sampleOrder) (takerAssetAmount sampleOrder)
          (makerFee sampleOrder) (takerFee sampleOrder)
          (expirationTimeSeconds sampleOrder) (salt sampleOrder)
          (list_byte_of_string "maker assez")
          (takerAssetData sampleOrder).

(** The sample order with the next salt. *)
Definition resaltedOrder : Order :=
  mkOrder (makerAddress sampleOrder) (takerAddress sampleOrder)
          (feeRecipientAddress sampleOrder) (senderAddress sampleOrder)
          (makerAssetAmount sampleOrder) (takerAssetAmount sampleOrder)
          (makerFee sampleOrder) (takerFee sampleOrder)
          (expirationTimeSeconds sampleOrder) (salt sampleOrder + 1)
          (makerAssetData sampleOrder) (takerAssetData sampleOrder).

End LibOrder.

(* ===================================================================== *)
(** ** Order status bookkeeping *)
(* ===================================================================== *)

Module StatusTracker.

#[global] Instance byte_eq_dec : EqDecision byte := Byte.byte_eq_dec.

#[global] Instance byte_countable : Countable byte :=
  inj_countable' Byte.to_N (fun n => default x00 (Byte.of_N n))
    (fun b => eq_ind_r (fun o => default x00 o = b)
                       (eq_refl : default x00 (Some b) = b)
                       (Byte.of_to_N b)).

(** Modelled from the spec: the members of the status enumeration, which
    LibStatus.sol (not among the sources) defines. LibOrder.sol stores the
    status in a [uint8]; here it is the enumeration itself. *)
Inductive OrderStatus : Type :=
| UNFILLED
| PARTIALLY_FILLED
| FULLY_FILLED
| EXPIRED
| CANCELLED
| INVALID.

(** [struct OrderInfo] of LibOrder.sol. *)
Record OrderInfo : Type := mkOrderInfo {
  orderStatus : OrderStatus;
  orderHash : bytes;
  orderTakerAssetFilledAmount : Z
}.

Inductive Rejection : Type :=
| TerminalState
| FillOvershoot.

Inductive FillResult : Type :=
| Accepted (info : OrderInfo)
| Rejected (why : Rejection).

(** Modelled from the spec: the record created lazily on the first
    reference to a hash has the default status and a zero filled amount. *)
Definition defaultOrderInfo (h : bytes) : OrderInfo :=
  mkOrderInfo UNFILLED h 0.

(** Modelled from the spec: [getOrderInfo(orderHash)], on a mapping keyed
    by the order hash. *)
Definition getOrderInfo (t : gmap bytes OrderInfo) (h : bytes) : OrderInfo :=
  default (defaultOrderInfo h) (t !! h).

(** Modelled from the spec: no fill is accepted once the order is fully
    filled or in one of the invalidation states. *)
Definition isTerminal (s : OrderStatus) : bool :=
  match s with
  | UNFILLED | PARTIALLY_FILLED => false
  | FULLY_FILLED | EXPIRED | CANCELLED | INVALID => true
  end.

(** Modelled from the spec: the status transitions that depend on the
    filled amount (section 4.3 of the specification). *)
Definition statusAfterFill (takerAssetAmount filled : Z)
    (previous : OrderStatus) : OrderStatus :=
  if filled =? takerAssetAmount then FULLY_FILLED
  else if 0 <? filled then PARTIALLY_FILLED
  else previous.

(** Modelled from the spec: one fill against one record. The settlement
    logic that performs fills (the Exchange contract) is not among the
    sources; a fill on a terminal record or one that would exceed
    [takerAssetAmount] is rejected, any other adds to the filled amount. *)
Definition fill (takerAssetAmount : Z) (info : OrderInfo) (amount : Z)
    : FillResult :=
  if isTerminal (orderStatus info) then Rejected TerminalState
  else if takerAssetAmount <? orderTakerAssetFilledAmount info + amount
  then Rejected FillOvershoot
  else
    let filled := orderTakerAssetFilledAmount info + amount in
    Accepted (mkOrderInfo
                (statusAfterFill takerAssetAmount filled (orderStatus info))
                (orderHash info) filled).

(** Modelled from the spec: [recordFill(orderHash, amount)], which returns
    the updated record or a rejection and writes the mapping only in the
    first case. [takerAssetAmountOf] gives the amount of the order that a
    hash identifies. *)
Definition recordFill (takerAssetAmountOf : bytes -> Z)
    (t : gmap bytes OrderInfo) (h : bytes) (amount : Z)
    : gmap bytes OrderInfo * FillResult :=
  match fill (takerAssetAmountOf h) (getOrderInfo t h) amount with
  | Accepted info => (<[h := info]> t, Accepted info)
  | Rejected why => (t, Rejected why)
  end.

(** A sequence of fills, each against some order hash, from mapping [t]. *)
Fixpoint recordFills (takerAssetAmountOf : bytes -> Z)
    (t : gmap bytes OrderInfo) (fills : list (bytes * Z))
    : gmap bytes OrderInfo :=
  match fills with
  | [] => t
  | (h, amount) :: rest =>
      recordFills takerAssetAmountOf
                  (fst (recordFill takerAssetAmountOf t h amount)) rest
  end.

Definition isRejected (r : FillResult) : bool :=
  match r with
  | Rejected _ => true
  | Accepted _ => false
  end.

(** What holds of the record of hash [h] in every mapping that fills can
    reach: the filled amount is within the order's amount, and a record
    filled to that amount is marked so, unless it is the record, not yet
    written, of an order whose amount is zero. *)
Definition consistent (takerAssetAmountOf : bytes -> Z) (h : bytes)
    (t : gmap bytes OrderInfo) : Prop :=
  let info := getOrderInfo t h in
  0 <= orderTakerAssetFilledAmount info <= takerAssetAmountOf h /\
  (orderTakerAssetFilledAmount info = takerAssetAmountOf h ->
   0 < takerAssetAmountOf h \/ is_Some (t !! h) ->
   orderStatus info = FULLY_FILLED).

(** The order of the sample, by its hash in the sample contract, with
    its [takerAssetAmount] of 2000. *)
Definition sampleHash : bytes :=
  fst (LibOrder.getOrderHash LibOrder.sampleOrder LibOrder.sampleContext).

Definition sampleAmountOf (h : bytes) : Z :=
  LibOrder.takerAssetAmount LibOrder.sampleOrder.

(** Orders that ask for nothing: a [takerAssetAmount] of zero, which the
    type [uint256] of the field allows. *)
Definition zeroAmountOf (h : bytes) : Z := 0.

End StatusTracker.

(* ===================================================================== *)
(** ** browser_ws_orderbook_channel.ts *)
(* ===================================================================== *)

Module OrderbookChannel.

(** A JavaScript [Error], by its message. *)
Inductive JsError : Type := Error (message : string).

(** What a call to a function of the environment does: it returns, or it
    throws. *)
Inductive Outcome : Type :=
| Returns
| Throws (e : JsError).

(** The members of [OrderbookChannelMessageTypes] that the channel tells
    apart; [Unknown] stands for every other member, which the [switch]
    sends to its [default] branch. *)
Inductive OrderbookChannelMessageTypes : Type :=
| Snapshot
| Update
| Unknown.

Inductive ReadyState : Type := CONNECTING | OPEN | CLOSING | CLOSED.

Section Channel.

(** The types [OrderbookChannelSubscriptionOpts] and the payload of a
    message are declared in ./types, which is not among the sources. *)
Context {SubscriptionOpts Payload : Type}.

(** [OrderbookChannelHandler]: four callbacks. The channel passes itself
    as their first argument; what a callback does with it is outside
    this model, which keeps of a callback whether it returns or
    throws. *)
Record OrderbookChannelHandler : Type := mkHandler {
  onSnapshot : SubscriptionOpts -> Payload -> Outcome;
  onUpdate : SubscriptionOpts -> Payload -> Outcome;
  onError : SubscriptionOpts -> JsError -> Outcome;
  onClose : SubscriptionOpts -> Outcome
}.

Record Subscription : Type := mkSubscription {
  subscriptionOpts : SubscriptionOpts;
  handler : OrderbookChannelHandler
}.

(** The object literal [subscribeMessage]. *)
Record SubscribeMessage : Type := mkSubscribeMessage {
  msg_type : string;
  msg_channel : string;
  msg_requestId : Z;
  msg_payload : SubscriptionOpts
}.

(** The result of [orderbookChannelMessageParser.parse]. [requestId] is
    a JavaScript number; a number that is no index of the array (here a
    negative one or one past the end) selects [undefined]. *)
Record ParserResult : Type := mkParserResult {
  type : OrderbookChannelMessageTypes;
  requestId : Z;
  payload : Payload
}.

(** An incoming websocket message: [data] may be undefined. *)
Record Message : Type := mkMessage { data : option string }.

(** The websocket client as far as the channel uses it: its ready state
    and the message that the [onopen] callback installed by [subscribe]
    will send. The three other callbacks installed there are fixed. *)
Record Client : Type := mkClient {
  url : string;
  readyState : ReadyState;
  onopenMessage : SubscribeMessage
}.

Record Channel : Type := mkChannel {
  _apiEndpointUrl : string;
  _clientIfExists : option Client;
  _subscriptions : list Subscription
}.

(** What the channel does to its environment: the calls to the
    callbacks of the subscription at index [i], and the frames sent. *)
Inductive Event : Type :=
| CallOnSnapshot (i : nat) (opts : SubscriptionOpts) (p : Payload)
| CallOnUpdate (i : nat) (opts : SubscriptionOpts) (p : Payload)
| CallOnError (i : nat) (opts : SubscriptionOpts) (e : JsError)
| CallOnClose (i : nat) (opts : SubscriptionOpts)
| Send (frame : SubscribeMessage).

(** Not among the sources: the parser and the two argument assertions
    of ./utils. Each either returns or throws. *)
Variable parse : string -> JsError + ParserResult.
Variable isOrderbookChannelSubscriptionOpts : SubscriptionOpts -> Outcome.
Variable isOrderbookChannelHandler : OrderbookChannelHandler -> Outcome.

(** Not among the sources: the constructor of the websocket package,
    [new WebSocket.w3cwebsocket(url)]. It returns a connecting socket or
    throws; which of the two is decided by the url (a url that is not of
    the ws or wss scheme is one that the socket does not accept). *)
Variable newWebSocket : string -> Outcome.

(** *** Methods: state, trace and exceptions *)

Inductive Completion (A : Type) : Type :=
| Normal (a : A)
| Thrown (e : JsError).
Arguments Normal {A} a.
Arguments Thrown {A} e.

Definition Method (A : Type) : Type :=
  Channel -> list Event -> Completion A * Channel * list Event.

Definition ret {A} (a : A) : Method A := fun ch tr => (Normal a, ch, tr).

Definition throw {A} (e : JsError) : Method A :=
  fun ch tr => (Thrown e, ch, tr).

Definition bind {A B} (m : Method A) (k : A -> Method B) : Method B :=
  fun ch tr =>
    match m ch tr with
    | (Normal a, ch', tr') => k a ch' tr'
    | (Thrown e, ch', tr') => (Thrown e, ch', tr')
    end.

Definition tryCatch {A} (body : Method A) (handle : JsError -> Method A)
    : Method A :=
  fun ch tr =>
    match body ch tr with
    | (Normal a, ch', tr') => (Normal a, ch', tr')
    | (Thrown e, ch', tr') => handle e ch' tr'
    end.

Local Notation "'let!' x ':=' m 'in' k" := (bind m (fun x => k))
  (at level 10, x name, m at level 100, k at level 200).
Local Notation "m ';;' k" := (bind m (fun _ => k))
  (at level 100, k at level 200, right associativity).

Definition this : Method Channel := fun ch tr => (Normal ch, ch, tr).

Definition setChannel (ch' : Channel) : Method unit :=
  fun _ tr => (Normal tt, ch', tr).

Definition emit (ev : Event) : Method unit :=
  fun ch tr => (Normal tt, ch, tr ++ [ev]).

Definition complete (o : Outcome) : Method unit :=
  match o with
  | Returns => ret tt
  | Throws e => throw e
  end.

(** A call to a callback: the call is observed, then it returns or
    throws. *)
Definition call (ev : Event) (o : Outcome) : Method unit :=
  emit ev ;; complete o.

(** [_.forEach(array, iteratee)], with the index of each element. *)
Fixpoint forEachFrom {A} (i : nat) (l : list A)
    (iteratee : nat -> A -> Method unit) : Method unit :=
  match l with
  | [] => ret tt
  | x :: l' => iteratee i x ;; forEachFrom (S i) l' iteratee
  end.

Definition forEach {A} (l : list A) (iteratee : nat -> A -> Method unit)
    : Method unit :=
  forEachFrom 0 l iteratee.

(** [array[index]] for a JavaScript number [index]. *)
Definition at_index {A} (l : list A) (index : Z) : option A :=
  if 0 <=? index then l !! Z.to_nat index else None.

Definition _sendMessage (message : SubscribeMessage) : Method unit :=
  let! self := this in
  match _clientIfExists self with
  | Some client =>
      match readyState client with
      | OPEN => emit (Send message)
      | _ => ret tt
      end
  | None => ret tt
  end.

(** The arrow function that [_alertAllHandlersToError] iterates. *)
Definition alertHandler (error : JsError) (i : nat)
    (subscription : Subscription) : Method unit :=
  call (CallOnError i (subscriptionOpts subscription) error)
       (onError (handler subscription)
                (subscriptionOpts subscription) error).

Definition _alertAllHandlersToError (error : JsError) : Method unit :=
  let! self := this in
  forEach (_subscriptions self) (alertHandler error).

Definition subscribe (subscriptionOpts : SubscriptionOpts)
    (handler : OrderbookChannelHandler) : Method unit :=
  complete (isOrderbookChannelSubscriptionOpts subscriptionOpts) ;;
  complete (isOrderbookChannelHandler handler) ;;
  let newSubscription := mkSubscription subscriptionOpts handler in
  let! self := this in
  setChannel (mkChannel (_apiEndpointUrl self) (_clientIfExists self)
                        (_subscriptions self ++ [newSubscription])) ;;
  let! self := this in
  let subscribeMessage :=
    mkSubscribeMessage "subscribe" "orderbook"
      (Z.of_nat (length (_subscriptions self)) - 1)
      subscriptionOpts in
  match _clientIfExists self with
  | None =>
      complete (newWebSocket (_apiEndpointUrl self)) ;;
      setChannel (mkChannel (_apiEndpointUrl self)
                    (Some (mkClient (_apiEndpointUrl self) CONNECTING
                                    subscribeMessage))
                    (_subscriptions self))
  | Some _ => _sendMessage subscribeMessage
  end.

(** [close()] *)
Definition close : Method unit :=
  let! self := this in
  match _clientIfExists self with
  | Some client =>
      let closing :=
        match readyState client with
        | CLOSED => CLOSED
        | _ => CLOSING
        end in
      setChannel (mkChannel (_apiEndpointUrl self)
                    (Some (mkClient (url client) closing
                                    (onopenMessage client)))
                    (_subscriptions self))
  | None => ret tt
  end.

Definition parseMessage (utf8Data : string) : Method ParserResult :=
  match parse utf8Data with
  | inl e => throw e
  | inr parserResult => ret parserResult
  end.

Definition _handleWebSocketMessage (message : Message) : Method unit :=
  match data message with
  | None =>
      _alertAllHandlersToError (Error "Message does not contain utf8Data")
  | Some utf8Data =>
      tryCatch
        (let! parserResult := parseMessage utf8Data in
         let! self := this in
         match at_index (_subscriptions self) (requestId parserResult) with
         | None =>
             _alertAllHandlersToError
               (Error ("Message has unknown requestId: " +:+ utf8Data))
         | Some subscription =>
             let i := Z.to_nat (requestId parserResult) in
             let handler := handler subscription in
             let subscriptionOpts := subscriptionOpts subscription in
             match type parserResult with
             | Snapshot =>
                 call (CallOnSnapshot i subscriptionOpts
                                      (payload parserResult))
                      (onSnapshot handler subscriptionOpts
                                  (payload parserResult))
             | Update =>
                 call (CallOnUpdate i subscriptionOpts
                                    (payload parserResult))
                      (onUpdate handler subscriptionOpts
                                (payload parserResult))
             | Unknown =>
                 let error :=
                   Error ("Message has unknown type parameter: "
                          +:+ utf8Data) in
                 call (CallOnError i subscriptionOpts error)
                      (onError handler subscriptionOpts error)
             end
         end)
        (fun error => _alertAllHandlersToError error)
  end.

(** The four callbacks that [subscribe] installs on a new client. The
    socket is open when it calls [onopen]. *)
Definition onopen : Method unit :=
  let! self := this in
  match _clientIfExists self with
  | Some client =>
      setChannel (mkChannel (_apiEndpointUrl self)
                    (Some (mkClient (url client) OPEN (onopenMessage client)))
                    (_subscriptions self)) ;;
      _sendMessage (onopenMessage client)
  | None => ret tt
  end.

Definition onerror (error : JsError) : Method unit :=
  _alertAllHandlersToError error.

Definition onclose : Method unit :=
  let! self := this in
  forEach (_subscriptions self) (fun i subscription =>
    call (CallOnClose i (subscriptionOpts subscription))
         (onClose (handler subscription) (subscriptionOpts subscription))).

Definition onmessage (message : Message) : Method unit :=
  _handleWebSocketMessage message.

(** The channel that a method leaves, from channel [ch]. *)
Definition channelAfter (m : Method unit) (ch : Channel) : Channel :=
  snd (fst (m ch [])).

(** The events of a trace that are calls to [onSnapshot] or [onUpdate]. *)
Definition isDataCall (ev : Event) : bool :=
  match ev with
  | CallOnSnapshot _ _ _ | CallOnUpdate _ _ _ => true
  | _ => false
  end.

(** The calls [onError(error)] on each subscription of [subs], in order,
    the first of them having index [i]. *)
Fixpoint errorCallsFrom (i : nat) (subs : list Subscription)
    (error : JsError) : list Event :=
  match subs with
  | [] => []
  | s :: subs' =>
      CallOnError i (subscriptionOpts s) error
        :: errorCallsFrom (S i) subs' error
  end.

(** No [onError] callback of [subs] throws. *)
Definition onErrorReturns (subs : list Subscription) : Prop :=
  forall s e, In s subs -> onError (handler s) (subscriptionOpts s) e = Returns.

Definition noDataCall (events : list Event) : Prop :=
  Forall (fun ev => isDataCall ev = false) events.

(** The three ways in which a message cannot be delivered to one
    subscription, each with the error that the channel reports: the
    message has no data, the parser throws, or the parsed [requestId]
    is the index of no subscription. *)
Inductive undeliverable (message : Message) (subs : list Subscription)
    : JsError -> Prop :=
| NoData :
    data message = None ->
    undeliverable message subs (Error "Message does not contain utf8Data")
| ParserThrows (utf8Data : string) (e : JsError) :
    data message = Some utf8Data ->
    parse utf8Data = inl e ->
    undeliverable message subs e
| UnknownRequestId (utf8Data : string) (parserResult : ParserResult) :
    data message = Some utf8Data ->
    parse utf8Data = inr parserResult ->
    at_index subs (requestId parserResult) = None ->
    undeliverable message subs
      (Error ("Message has unknown requestId: " +:+ utf8Data)).

(** The event of the one call that a routed message makes. *)
Definition routedCall (utf8Data : string) (r : ParserResult)
    (s : Subscription) : Event :=
  let i := Z.to_nat (requestId r) in
  match type r with
  | Snapshot => CallOnSnapshot i (subscriptionOpts s) (payload r)
  | Update => CallOnUpdate i (subscriptionOpts s) (payload r)
  | Unknown =>
      CallOnError i (subscriptionOpts s)
        (Error ("Message has unknown type parameter: " +:+ utf8Data))
  end.

(** What that call does. *)
Definition routedOutcome (utf8Data : string) (r : ParserResult)
    (s : Subscription) : Outcome :=
  match type r with
  | Snapshot => onSnapshot (handler s) (subscriptionOpts s) (payload r)
  | Update => onUpdate (handler s) (subscriptionOpts s) (payload r)
  | Unknown =>
      onError (handler s) (subscriptionOpts s)
        (Error ("Message has unknown type parameter: " +:+ utf8Data))
  end.

(** *** The constructor and the life of a channel *)

(** Not among the sources: [assert.isUri] of ./utils/assert. *)
Variable isUri : string -> Outcome.

(** [constructor(url)]: the url is checked, then kept; the list of
    subscriptions starts empty and there is no client. *)
Definition constructor (url : string) : Completion Channel :=
  match isUri url with
  | Returns => Normal (mkChannel url None [])
  | Throws e => Thrown e
  end.

(** What can happen to a channel: its two public methods are called, and
    the socket calls the four callbacks that [subscribe] installed. *)
Inductive Action : Type :=
| CallSubscribe (opts : SubscriptionOpts) (h : OrderbookChannelHandler)
| CallClose
| SocketOpen
| SocketError (error : JsError)
| SocketClose
| SocketMessage (message : Message).

Definition perform (a : Action) : Method unit :=
  match a with
  | CallSubscribe opts h => subscribe opts h
  | CallClose => close
  | SocketOpen => onopen
  | SocketError error => onerror error
  | SocketClose => onclose
  | SocketMessage message => onmessage message
  end.

(** A sequence of actions. What an action throws goes to its caller; the
    channel and the trace are as the action left them. *)
Fixpoint performAll (actions : list Action) (ch : Channel)
    (tr : list Event) : Channel * list Event :=
  match actions with
  | [] => (ch, tr)
  | a :: rest =>
      let '(_, ch', tr') := perform a ch tr in performAll rest ch' tr'
  end.

Definition returns (o : Outcome) : bool :=
  match o with
  | Returns => true
  | Throws _ => false
  end.

(** The calls of [subscribe] that pass both argument assertions. *)
Definition accepted (a : Action) : bool :=
  match a with
  | CallSubscribe opts h =>
      returns (isOrderbookChannelSubscriptionOpts opts)
      && returns (isOrderbookChannelHandler h)
  | _ => false
  end.

(** The subscribe message of a call made when the list is [subs]: its
    [requestId] is the index that the new subscription gets. *)
Definition messageFor (subs : list Subscription) (opts : SubscriptionOpts)
    : SubscribeMessage :=
  mkSubscribeMessage "subscribe" "orderbook" (Z.of_nat (length subs)) opts.

(** A subscribe message that names a subscription of [subs] by its index
    and carries the options of that subscription. *)
Definition frameOf (subs : list Subscription) (f : SubscribeMessage) : Prop :=
  msg_type f = "subscribe" /\ msg_channel f = "orderbook" /\
  exists s, at_index subs (msg_requestId f) = Some s /\
            msg_payload f = subscriptionOpts s.

(** An event that concerns a subscription of [subs]: a call to a callback
    of the subscription at index [i], with the options of that
    subscription, or a frame as above. *)
Definition eventOf (subs : list Subscription) (ev : Event) : Prop :=
  match ev with
  | CallOnSnapshot i opts _ | CallOnUpdate i opts _
  | CallOnError i opts _ | CallOnClose i opts =>
      exists s, subs !! i = Some s /\ opts = subscriptionOpts s
  | Send f => frameOf subs f
  end.

(** The channel and its trace agree: every event concerns a subscription
    of the list; without a client the list is empty; with one, the client
    is at the channel's url and the message kept for [onopen] is the one of
    the first subscription. A channel stays so as long as the construction
    of the socket does not throw; when it throws, [subscribe] leaves a
    subscription and no client. *)
Definition coherent (ch : Channel) (tr : list Event) : Prop :=
  Forall (eventOf (_subscriptions ch)) tr /\
  match _clientIfExists ch with
  | None => _subscriptions ch = []
  | Some client =>
      url client = _apiEndpointUrl ch /\
      msg_requestId (onopenMessage client) = 0 /\
      frameOf (_subscriptions ch) (onopenMessage client)
  end.

(** An event that is no frame, or a frame whose [requestId] is 0 or at
    least [n]. *)
Definition framesFrom (n : nat) (ev : Event) : Prop :=
  match ev with
  | Send f => msg_requestId f = 0 \/ Z.of_nat n <= msg_requestId f
  | _ => True
  end.

(** The frames that the channel can still send are for the first
    subscription or for one at index [n] or later: the list has [n]
    subscriptions at least, and the message kept for [onopen], if there is
    a client, has such a [requestId]. *)
Definition pendingFrom (n : nat) (ch : Channel) : Prop :=
  (n <= length (_subscriptions ch))%nat /\
  forall client, _clientIfExists ch = Some client ->
    msg_requestId (onopenMessage client) = 0 \/
    Z.of_nat n <= msg_requestId (onopenMessage client).

(** The calls [onClose()] on each subscription of [subs], in order, the
    first of them having index [i]. *)
Fixpoint closeCallsFrom (i : nat) (subs : list Subscription) : list Event :=
  match subs with
  | [] => []
  | s :: subs' =>
      CallOnClose i (subscriptionOpts s) :: closeCallsFrom (S i) subs'
  end.

(** No [onClose] callback of [subs] throws. *)
Definition onCloseReturns (subs : list Subscription) : Prop :=
  forall s, In s subs -> onClose (handler s) (subscriptionOpts s) = Returns.

End Channel.

Arguments Action : clear implicits.
Arguments OrderbookChannelHandler : clear implicits.
Arguments Subscription : clear implicits.
Arguments SubscribeMessage : clear implicits.
Arguments ParserResult : clear implicits.
Arguments Client : clear implicits.
Arguments Channel : clear implicits.
Arguments Event : clear implicits.
Arguments Normal {A} a.
Arguments Thrown {A} e.

(** *** A small instance

    Subscription options are a token pair by name and payloads are
    numbers; the schema assertion on the options rejects the empty
    name. *)
Definition rejectEmptyOpts (opts : string) : Outcome :=
  if String.eqb opts ""
  then Throws (Error "Expected subscriptionOpts to conform to schema")
  else Returns.

Definition acceptHandler (h : OrderbookChannelHandler string Z) : Outcome :=
  Returns.

Definition quietHandler : OrderbookChannelHandler string Z :=
  mkHandler (fun _ _ => Returns) (fun _ _ => Returns)
            (fun _ _ => Returns) (fun _ => Returns).

(** A handler whose [onError] throws what it is given. *)
Definition rethrowingHandler : OrderbookChannelHandler string Z :=
  mkHandler (fun _ _ => Returns) (fun _ _ => Returns)
            (fun _ e => Throws e) (fun _ => Returns).

(** A socket constructor that accepts the urls of the ws and wss schemes
    and throws on every other. *)
Definition acceptWsUrl (url : string) : Outcome :=
  if String.prefix "ws://" url || String.prefix "wss://" url
  then Returns
  else Throws (Error "SyntaxError: The URL's scheme must be ws or wss").

(** The channel as its constructor leaves it. *)
Definition newChannel : Channel string Z :=
  mkChannel "ws://relayer.example/v0" None [].

(** A channel at a url that is a uri, but not one that the socket
    accepts. *)
Definition httpChannel : Channel string Z :=
  mkChannel "http://relayer.example/v0" None [].

(** The channel after a first subscription, the opening of the socket and
    a second subscription. *)
Definition subscribedTwice (first second : OrderbookChannelHandler string Z)
    : Channel string Z :=
  channelAfter (subscribe rejectEmptyOpts acceptHandler acceptWsUrl
      "DAI-WETH" second)
    (channelAfter onopen
       (channelAfter (subscribe rejectEmptyOpts acceptHandler acceptWsUrl
           "ZRX-WETH" first)
          newChannel)).

Definition twoSubscriptions : Channel string Z :=
  subscribedTwice rethrowingHandler quietHandler.

Definition quietSubscriptions : Channel string Z :=
  subscribedTwice quietHandler quietHandler.

(** The channel after a first subscription, the socket still
    connecting. *)
Definition connectingChannel : Channel string Z :=
  channelAfter (subscribe rejectEmptyOpts acceptHandler acceptWsUrl
      "ZRX-WETH" quietHandler)
    newChannel.

(** The same after a second subscription, made before the socket has
    opened. *)
Definition pendingChannel : Channel string Z :=
  channelAfter (subscribe rejectEmptyOpts acceptHandler acceptWsUrl
      "DAI-WETH" quietHandler)
    connectingChannel.

(** A url assertion that rejects the empty url. *)
Definition rejectEmptyUrl (url : string) : Outcome :=
  if String.eqb url "" then Throws (Error "Expected url to be of type uri")
  else Returns.

(** A parser that reads every input as the snapshot 7 for request 1. *)
Definition snapshotParser (utf8Data : string) : JsError + ParserResult Z :=
  inr (mkParserResult Snapshot 1 7).

(** A parser that reads every input as a message of an unknown type for
    request 1. *)
Definition unknownTypeParser (utf8Data : string)
    : JsError + ParserResult Z :=
  inr (mkParserResult Unknown 1 0).

(** A parser that reads every input as the snapshot 7 for request -1. *)
Definition negativeIdParser (utf8Data : string)
    : JsError + ParserResult Z :=
  inr (mkParserResult Snapshot (-1) 7).

(** A handler whose [onSnapshot] throws. *)
Definition throwingSnapshotHandler : OrderbookChannelHandler string Z :=
  mkHandler (fun _ _ => Throws (Error "snapshot refused"))
            (fun _ _ => Returns) (fun _ _ => Returns) (fun _ => Returns).

(** The channel after two subscriptions of which the second has the
    handler whose [onSnapshot] throws. *)
Definition throwingSubscription : Channel string Z :=
  subscribedTwice quietHandler throwingSnapshotHandler.

(** A life of a channel: a subscription, the opening of the socket, a
    rejected and an accepted subscription, a message without data, the
    closing of the channel and of the socket, a late subscription. *)
Definition sampleActions : list (Action string Z) :=
  [CallSubscribe "ZRX-WETH" quietHandler;
   SocketOpen;
   CallSubscribe "" quietHandler;
   CallSubscribe "DAI-WETH" rethrowingHandler;
   SocketMessage (mkMessage None);
   CallClose;
   SocketClose;
   CallSubscribe "MKR-WETH" quietHandler].

(** A parser that throws on every input. *)
Definition failingParser (utf8Data : string)
    : JsError + ParserResult Z :=
  inl (Error "Unexpected token").

End OrderbookChannel.

(* ===================================================================== *)
(** * Properties *)
(* ===================================================================== *)

(** ** Bytes, packed encoding and digests *)

Module AbiFacts.

Import Keccak Abi.

Lemma byte_to_Z_range (b : byte) : 0 <= byte_to_Z b < 256.
Proof.
  unfold byte_to_Z. pose proof (Byte.to_N_bounded b). lia.
Qed.

Lemma byte_to_Z_of_Z (z : Z) : byte_to_Z (byte_of_Z z) = z mod 256.
Proof.
  unfold byte_to_Z, byte_of_Z.
  assert (Hr : 0 <= z mod 256 < 256) by (apply Z.mod_pos_bound; lia).
  destruct (Byte.of_N (Z.to_N (z mod 256))) as [b|] eqn:E.
  - apply Byte.to_of_N in E. rewrite E. lia.
  - apply Byte.of_N_None_iff in E. lia.
Qed.

Lemma byte_to_Z_inj (a b : byte) : byte_to_Z a = byte_to_Z b -> a = b.
Proof.
  unfold byte_to_Z. intros H. apply N2Z.inj in H.
  apply (f_equal Byte.of_N) in H. rewrite !Byte.of_to_N in H. congruence.
Qed.

Lemma length_le_bytes (n : nat) (z : Z) : length (le_bytes n z) = n.
Proof. revert z. induction n as [|n IH]; intros z; simpl; auto. Qed.

Lemma length_be_bytes (n : nat) (z : Z) : length (be_bytes n z) = n.
Proof. unfold be_bytes. rewrite length_rev. apply length_le_bytes. Qed.

Lemma le_decode_le_bytes (n : nat) (z : Z) :
  le_decode (le_bytes n z) = z mod 256 ^ Z.of_nat n.
Proof.
  revert z. induction n as [|n IH]; intros z.
  - simpl. now rewrite Z.mod_1_r.
  - change (le_decode (le_bytes (S n) z))
      with (byte_to_Z (byte_of_Z z) + 256 * le_decode (le_bytes n (z / 256))).
    rewrite IH, byte_to_Z_of_Z, Nat2Z.inj_succ, Z.pow_succ_r by lia.
    rewrite Z.rem_mul_r by lia. reflexivity.
Qed.

Lemma be_decode_be_bytes (n : nat) (z : Z) :
  0 <= z < 256 ^ Z.of_nat n -> be_decode (be_bytes n z) = z.
Proof.
  intros Hz. unfold be_decode, be_bytes.
  rewrite rev_involutive, le_decode_le_bytes. now apply Z.mod_small.
Qed.

(** Two numbers that fit in [n] bytes and have the same encoding are
    equal. *)
Lemma be_bytes_inj (n : nat) (x y : Z) :
  0 <= x < 256 ^ Z.of_nat n -> 0 <= y < 256 ^ Z.of_nat n ->
  be_bytes n x = be_bytes n y -> x = y.
Proof.
  intros Hx Hy E.
  rewrite <- (be_decode_be_bytes n x Hx), <- (be_decode_be_bytes n y Hy).
  now rewrite E.
Qed.

Lemma length_lane_to_bytes (z : Z) : length (lane_to_bytes z) = 8%nat.
Proof. reflexivity. Qed.

(** A digest is 32 bytes long, whatever was hashed. *)
Lemma length_keccak256 (m : bytes) : length (keccak256 m) = 32%nat.
Proof.
  with_strategy transparent [keccak256] unfold keccak256.
  unfold squeeze.
  generalize (absorb (length (pad m) / rate) (repeat 0 25) (pad m)).
  intros A. reflexivity.
Qed.

(** Two digests of the Keccak team's test vectors: the empty string and
    "abc". *)
Example keccak256_empty :
  to_hex (keccak256 []) =
  "c5d2460186f7233c927e7db2dcc703c0e500b653ca82273b7bfad8045d85a470".
Proof. vm_compute. reflexivity. Qed.

Example keccak256_abc :
  to_hex (keccak256 (list_byte_of_string "abc")) =
  "4e03657aea45a94fc7d47ba826c8d667c0d1e6e33a64a036ec44f58fa12d6c45".
Proof. vm_compute. reflexivity. Qed.

Lemma bytes_eqb_eq (a b : bytes) : bytes_eqb a b = true <-> a = b.
Proof.
  revert b. induction a as [|x a IH]; intros [|y b]; simpl;
    try (split; [discriminate | discriminate]); try tauto.
  rewrite andb_true_iff, IH. split.
  - intros [Hxy ->]. apply Byte.byte_dec_bl in Hxy. now subst.
  - intros E. injection E as -> ->. split; auto. now apply Byte.byte_dec_lb.
Qed.

Lemma slice_here (a b : bytes) (n : nat) :
  length a = n -> slice 0 n (a ++ b) = a.
Proof.
  intros <-. unfold slice. rewrite drop_0. apply take_app_length.
Qed.

Lemma slice_skip (a b : bytes) (k off n : nat) :
  length a = k -> (k <= off)%nat ->
  slice off n (a ++ b) = slice (off - k) n b.
Proof.
  intros <- Hle. unfold slice. now rewrite drop_app_ge.
Qed.

Lemma slice_all (a : bytes) (n : nat) : length a = n -> slice 0 n a = a.
Proof. intros <-. unfold slice. rewrite drop_0. apply firstn_all. Qed.

End AbiFacts.

(** ** LibOrder.getOrderHash *)

Module LibOrderFacts.

Import Keccak Abi LibOrder AbiFacts.

Lemma address_bound : 256 ^ Z.of_nat 20 = 2 ^ 160.
Proof. reflexivity. Qed.

Lemma uint256_bound : 256 ^ Z.of_nat 32 = 2 ^ 256.
Proof. reflexivity. Qed.

Lemma address_inj (a b : Z) :
  is_address a -> is_address b -> be_bytes 20 a = be_bytes 20 b -> a = b.
Proof.
  unfold is_address. rewrite <- address_bound. apply be_bytes_inj.
Qed.

Lemma uint256_inj (a b : Z) :
  is_uint256 a -> is_uint256 b -> be_bytes 32 a = be_bytes 32 b -> a = b.
Proof.
  unfold is_uint256. rewrite <- uint256_bound. apply be_bytes_inj.
Qed.

Lemma address_decode (a : Z) :
  is_address a -> be_decode (be_bytes 20 a) = a.
Proof.
  unfold is_address. rewrite <- address_bound. apply be_decode_be_bytes.
Qed.

Lemma uint256_decode (n : Z) :
  is_uint256 n -> be_decode (be_bytes 32 n) = n.
Proof.
  unfold is_uint256. rewrite <- uint256_bound. apply be_decode_be_bytes.
Qed.

Lemma encodePacked_bytes (b : bytes) : encodePacked [VBytes b] = b.
Proof. unfold encodePacked. simpl. apply app_nil_r. Qed.

Lemma encodePacked_address (a : Z) :
  encodePacked [VAddress a] = be_bytes 20 a.
Proof. unfold encodePacked. cbn [flat_map encodeValue]. apply app_nil_r. Qed.

(** The packed order fields: the ten fixed-width fields, then the two
    digests of the asset data. *)
Lemma orderFields_packed (o : Order) :
  encodePacked (orderFields o) =
  fixedFieldEncoding o ++
  keccak256 (makerAssetData o) ++ keccak256 (takerAssetData o).
Proof.
  unfold encodePacked, orderFields, fixedFieldEncoding.
  cbn [flat_map encodeValue].
  rewrite !encodePacked_bytes, !app_nil_r, <- !app_assoc.
  reflexivity.
Qed.

Lemma length_fixedFieldEncoding (o : Order) :
  length (fixedFieldEncoding o) = 272%nat.
Proof.
  unfold fixedFieldEncoding. rewrite !length_app, !length_be_bytes.
  reflexivity.
Qed.

Lemma outerArguments_packed (v : Z) (o : Order) :
  encodePacked (outerArguments v o) =
  DOMAIN_SEPARATOR_SCHEMA_HASH ++
  keccak256 (be_bytes 20 v) ++
  ORDER_SCHEMA_HASH ++
  keccak256 (encodePacked (orderFields o)).
Proof.
  unfold encodePacked at 1. unfold outerArguments.
  cbn [flat_map encodeValue].
  now rewrite encodePacked_address, !app_nil_r.
Qed.

(** What a call computes and what it leaves: the digest of the packed
    outer arguments at the executing contract's address, and the context
    it was given. *)
Lemma getOrderHash_run (o : Order) (c : Context) :
  getOrderHash o c = (keccak256 (encodePacked (outerArguments (this c) o)), c).
Proof. reflexivity. Qed.

(** The context is not read-only by construction: a store changes it. *)
Example sstore_writes :
  storage (snd (sstore 3 9 sampleContext)) !! 3 = Some 9 /\
  storage sampleContext !! 3 = None.
Proof. split; reflexivity. Qed.

(** The digest of the sample order in the sample contract. *)
Example getOrderHash_sample :
  to_hex (fst (getOrderHash sampleOrder sampleContext)) =
  "73242b410501de296bd4992d795b435f2f04de177244803d98a86556f7d7baec".
Proof. vm_compute. reflexivity. Qed.

Lemma schema_literals :
  encodePacked
    [VString "Order(";
     VString "address makerAddress,";
     VString "address takerAddress,";
     VString "address feeRecipientAddress,";
     VString "address senderAddress,";
     VString "uint256 makerAssetAmount,";
     VString "uint256 takerAssetAmount,";
     VString "uint256 makerFee,";
     VString "uint256 takerFee,";
     VString "uint256 expirationTimeSeconds,";
     VString "uint256 salt,";
     VString "bytes makerAssetData,";
     VString "bytes takerAssetData,";
     VString ")"] = list_byte_of_string orderSchemaConstant.
Proof. vm_compute. reflexivity. Qed.

Lemma ORDER_SCHEMA_HASH_eq :
  ORDER_SCHEMA_HASH = keccak256 (list_byte_of_string orderSchemaConstant).
Proof. unfold ORDER_SCHEMA_HASH. now rewrite schema_literals. Qed.

Lemma DOMAIN_SEPARATOR_SCHEMA_HASH_eq :
  DOMAIN_SEPARATOR_SCHEMA_HASH =
  keccak256 (list_byte_of_string domainSchemaConstant).
Proof.
  unfold DOMAIN_SEPARATOR_SCHEMA_HASH, encodePacked.
  cbn [flat_map encodeValue]. now rewrite app_nil_r.
Qed.

Lemma collision_freeb_sound (l : list bytes) :
  collision_freeb l = true -> collision_free l.
Proof.
  unfold collision_freeb, collision_free. intros Hb x y Hx Hy Hxy.
  rewrite forallb_forall in Hb.
  specialize (Hb (x, keccak256 x)).
  rewrite forallb_forall in Hb.
  assert (Hin : forall z, In z l -> In (z, keccak256 z)
                  (map (fun x => (x, keccak256 x)) l)).
  { intros z Hz. apply (in_map (fun x => (x, keccak256 x)) l z Hz). }
  specialize (Hb (Hin x Hx) (y, keccak256 y) (Hin y Hy)).
  simpl in Hb. apply bytes_eqb_eq.
  destruct (bytes_eqb (keccak256 x) (keccak256 y)) eqn:E; [exact Hb|].
  apply bytes_eqb_eq in Hxy. congruence.
Qed.

Ltac skip_slot :=
  erewrite slice_skip;
  [ cbn [Nat.sub]
  | first [apply length_be_bytes | apply length_keccak256]
  | lia ].

Ltac read_slot :=
  first [ erewrite slice_here;
          [| first [apply length_be_bytes | apply length_keccak256]]
        | erewrite slice_all; [| apply length_keccak256] ].

Ltac split_slot H E :=
  apply app_inj_1 in H as [E H];
  [| rewrite ?length_be_bytes, ?length_keccak256; reflexivity].

Lemma order_ext (o1 o2 : Order) :
  makerAddress o1 = makerAddress o2 ->
  takerAddress o1 = takerAddress o2 ->
  feeRecipientAddress o1 = feeRecipientAddress o2 ->
  senderAddress o1 = senderAddress o2 ->
  makerAssetAmount o1 = makerAssetAmount o2 ->
  takerAssetAmount o1 = takerAssetAmount o2 ->
  makerFee o1 = makerFee o2 ->
  takerFee o1 = takerFee o2 ->
  expirationTimeSeconds o1 = expirationTimeSeconds o2 ->
  salt o1 = salt o2 ->
  makerAssetData o1 = makerAssetData o2 ->
  takerAssetData o1 = takerAssetData o2 ->
  o1 = o2.
Proof. destruct o1, o2. cbn. intros. subst. reflexivity. Qed.

Ltac in_inputs :=
  apply in_or_app; cbn [hashedInputs In]; tauto.

(** C1 (as amended). [getOrderHash] returns
    H(H(domain-schema-constant) ‖ H(v) ‖ order-schema-hash ‖
      H(fixed-field-encoding ‖ H(makerAssetData) ‖ H(takerAssetData)))
    where v is the address of the executing contract: its first component
    is the hash of the domain schema constant itself, and no hash of that
    constant together with H(v) is formed. *)
Theorem getOrderHash_formula (o : Order) (c : Context) :
  fst (getOrderHash o c) =
  keccak256 (keccak256 (list_byte_of_string domainSchemaConstant) ++
             keccak256 (be_bytes 20 (this c)) ++
             keccak256 (list_byte_of_string orderSchemaConstant) ++
             keccak256 (fixedFieldEncoding o ++
                        keccak256 (makerAssetData o) ++
                        keccak256 (takerAssetData o))).
Proof.
  rewrite getOrderHash_run. cbn [fst].
  rewrite outerArguments_packed, orderFields_packed.
  rewrite DOMAIN_SEPARATOR_SCHEMA_HASH_eq, ORDER_SCHEMA_HASH_eq.
  reflexivity.
Qed.

(** C1 fails as stated: on the sample order, in the sample context, the
    digest that [getOrderHash] returns is not the one of the formula whose
    first component is the domain-separator hash
    H(H(domain-schema-constant) ‖ H(v)). *)
Lemma getOrderHash_is_not_spec_orderHash :
  fst (getOrderHash sampleOrder sampleContext) <>
  spec_orderHash (this sampleContext) sampleOrder.
Proof. vm_compute. discriminate. Qed.

(** C2. The digest depends on the order and on the address of the
    executing contract only: two contexts with the same address, whatever
    their storage, caller and block time, give the same 32-byte digest for
    the same order, and so do two calls in a row. *)
Theorem getOrderHash_deterministic (o : Order) (c1 c2 : Context) :
  this c1 = this c2 ->
  fst (getOrderHash o c1) = fst (getOrderHash o c2) /\
  fst (getOrderHash o (snd (getOrderHash o c1))) = fst (getOrderHash o c1) /\
  length (fst (getOrderHash o c1)) = 32%nat.
Proof.
  intros Hthis. rewrite !getOrderHash_run. cbn [fst snd].
  rewrite Hthis.
  repeat apply conj; [reflexivity | reflexivity | apply length_keccak256].
Qed.

Lemma getOrderHash_deterministic_witness :
  fst (getOrderHash sampleOrder sampleContext) =
  fst (getOrderHash sampleOrder busyContext).
Proof.
  apply (getOrderHash_deterministic sampleOrder sampleContext busyContext
           eq_refl).
Defined.

(** C3. The same order hashed by two contracts at different addresses
    gets different digests, as long as [keccak256] has no collision among
    the byte strings hashed in the two computations. *)
Theorem getOrderHash_domain_separation (o : Order) (c1 c2 : Context) :
  is_address (this c1) -> is_address (this c2) ->
  this c1 <> this c2 ->
  collision_free (hashedInputs (this c1) o ++ hashedInputs (this c2) o) ->
  fst (getOrderHash o c1) <> fst (getOrderHash o c2).
Proof.
  intros Ha1 Ha2 Hne Hfree Heq.
  rewrite !getOrderHash_run in Heq. cbn [fst] in Heq.
  apply Hfree in Heq; [| in_inputs | in_inputs].
  rewrite !outerArguments_packed in Heq.
  apply app_inv_head in Heq.
  apply app_inj_1 in Heq as [Hv _]; [| now rewrite !length_keccak256].
  rewrite <- !encodePacked_address in Hv.
  apply Hfree in Hv; [| in_inputs | in_inputs].
  rewrite !encodePacked_address in Hv.
  apply Hne. now apply address_inj.
Qed.

Lemma getOrderHash_domain_separation_witness :
  fst (getOrderHash sampleOrder sampleContext) <>
  fst (getOrderHash sampleOrder otherContext).
Proof.
  apply getOrderHash_domain_separation.
  - vm_compute. split; [discriminate | reflexivity].
  - vm_compute. split; [discriminate | reflexivity].
  - vm_compute. discriminate.
  - apply collision_freeb_sound. vm_compute. reflexivity.
Defined.

(** C4. The asset data never enter the hashed field stream themselves:
    the stream is the fixed-width encoding followed by the two 32-byte
    digests of [makerAssetData] and [takerAssetData], which fill the
    slots at bytes 272..303 and 304..335, so that the stream is 336 bytes
    long whatever the lengths of the asset data; and the digest of that
    stream is the last component of what [getOrderHash] hashes. *)
Theorem assetData_enter_as_leaf_hashes (o : Order) (c : Context) :
  let stream := encodePacked (orderFields o) in
  stream = fixedFieldEncoding o ++
           keccak256 (makerAssetData o) ++ keccak256 (takerAssetData o) /\
  length (fixedFieldEncoding o) = 272%nat /\
  length stream = 336%nat /\
  slice 272 32 stream = keccak256 (makerAssetData o) /\
  slice 304 32 stream = keccak256 (takerAssetData o) /\
  length (keccak256 (makerAssetData o)) = 32%nat /\
  length (keccak256 (takerAssetData o)) = 32%nat /\
  fst (getOrderHash o c) =
    keccak256 (DOMAIN_SEPARATOR_SCHEMA_HASH ++
               keccak256 (be_bytes 20 (this c)) ++
               ORDER_SCHEMA_HASH ++ keccak256 stream).
Proof.
  cbn zeta. rewrite getOrderHash_run, outerArguments_packed.
  rewrite orderFields_packed.
  pose proof (length_fixedFieldEncoding o) as Hfixed.
  pose proof (length_keccak256 (makerAssetData o)) as Hm.
  pose proof (length_keccak256 (takerAssetData o)) as Ht.
  repeat apply conj.
  - reflexivity.
  - exact Hfixed.
  - rewrite !length_app, Hfixed, Hm, Ht. reflexivity.
  - rewrite (slice_skip _ _ 272 272 32 Hfixed) by lia.
    cbn [Nat.sub]. exact (slice_here _ _ 32 Hm).
  - rewrite (slice_skip _ _ 272 304 32 Hfixed) by lia.
    cbn [Nat.sub]. rewrite (slice_skip _ _ 32 32 32 Hm) by lia.
    cbn [Nat.sub]. exact (slice_all _ 32 Ht).
  - exact Hm.
  - exact Ht.
  - reflexivity.
Qed.

(** C5. [getOrderHash] hashes the digest of a field stream in which the
    four addresses take 20 bytes each and the six integers 32 bytes each,
    big-endian, in the order in which the Order schema declares them:
    makerAddress, takerAddress, feeRecipientAddress, senderAddress,
    makerAssetAmount, takerAssetAmount, makerFee, takerFee,
    expirationTimeSeconds, salt, and then the digests of the two asset
    data. *)
Theorem fixed_width_fields_in_schema_order (o : Order) (c : Context) :
  valid_order o ->
  let stream := encodePacked (orderFields o) in
  fst (getOrderHash o c) =
    keccak256 (DOMAIN_SEPARATOR_SCHEMA_HASH ++
               keccak256 (be_bytes 20 (this c)) ++
               ORDER_SCHEMA_HASH ++ keccak256 stream) /\
  length stream = 336%nat /\
  be_decode (slice 0 20 stream) = makerAddress o /\
  be_decode (slice 20 20 stream) = takerAddress o /\
  be_decode (slice 40 20 stream) = feeRecipientAddress o /\
  be_decode (slice 60 20 stream) = senderAddress o /\
  be_decode (slice 80 32 stream) = makerAssetAmount o /\
  be_decode (slice 112 32 stream) = takerAssetAmount o /\
  be_decode (slice 144 32 stream) = makerFee o /\
  be_decode (slice 176 32 stream) = takerFee o /\
  be_decode (slice 208 32 stream) = expirationTimeSeconds o /\
  be_decode (slice 240 32 stream) = salt o /\
  slice 272 32 stream = keccak256 (makerAssetData o) /\
  slice 304 32 stream = keccak256 (takerAssetData o) /\
  ORDER_SCHEMA_HASH = keccak256 (list_byte_of_string orderSchemaConstant).
Proof.
  intros (H1 & H2 & H3 & H4 & H5 & H6 & H7 & H8 & H9 & H10).
  cbn zeta. split.
  { rewrite getOrderHash_run, outerArguments_packed. reflexivity. }
  rewrite orderFields_packed.
  split.
  { rewrite !length_app, length_fixedFieldEncoding, !length_keccak256.
    reflexivity. }
  unfold fixedFieldEncoding. rewrite <- !app_assoc.
  repeat apply conj.
  - read_slot. now apply address_decode.
  - do 1 skip_slot. read_slot. now apply address_decode.
  - do 2 skip_slot. read_slot. now apply address_decode.
  - do 3 skip_slot. read_slot. now apply address_decode.
  - do 4 skip_slot. read_slot. now apply uint256_decode.
  - do 5 skip_slot. read_slot. now apply uint256_decode.
  - do 6 skip_slot. read_slot. now apply uint256_decode.
  - do 7 skip_slot. read_slot. now apply uint256_decode.
  - do 8 skip_slot. read_slot. now apply uint256_decode.
  - do 9 skip_slot. read_slot. now apply uint256_decode.
  - do 10 skip_slot. read_slot. reflexivity.
  - do 11 skip_slot. read_slot. reflexivity.
  - apply ORDER_SCHEMA_HASH_eq.
Qed.

Lemma valid_sampleOrder : valid_order sampleOrder.
Proof.
  unfold valid_order, is_address, is_uint256.
  repeat apply conj; vm_compute; first [discriminate | reflexivity].
Defined.

Lemma fixed_width_fields_in_schema_order_witness :
  fst (getOrderHash sampleOrder sampleContext) =
    keccak256 (DOMAIN_SEPARATOR_SCHEMA_HASH ++
               keccak256 (be_bytes 20 (this sampleContext)) ++
               ORDER_SCHEMA_HASH ++
               keccak256 (encodePacked (orderFields sampleOrder))) /\
  be_decode (slice 112 32 (encodePacked (orderFields sampleOrder))) = 2000.
Proof.
  pose proof (fixed_width_fields_in_schema_order sampleOrder sampleContext
                valid_sampleOrder) as H.
  cbn zeta in H.
  destruct H as (Hhash & _ & _ & _ & _ & _ & _ & Htaker & _).
  split; [exact Hhash | exact Htaker].
Defined.

(** C6. Two valid orders that differ in any field, be it in one byte of
    an address, of an integer or of either asset data, get different
    digests in the same contract, as long as [keccak256] has no collision
    among the byte strings hashed in the two computations. *)
Theorem getOrderHash_field_sensitive (o1 o2 : Order) (c : Context) :
  valid_order o1 -> valid_order o2 ->
  o1 <> o2 ->
  collision_free (hashedInputs (this c) o1 ++ hashedInputs (this c) o2) ->
  fst (getOrderHash o1 c) <> fst (getOrderHash o2 c).
Proof.
  intros (A1 & A2 & A3 & A4 & A5 & A6 & A7 & A8 & A9 & A10)
         (B1 & B2 & B3 & B4 & B5 & B6 & B7 & B8 & B9 & B10)
         Hne Hfree Heq.
  rewrite !getOrderHash_run in Heq. cbn [fst] in Heq.
  apply Hfree in Heq; [| in_inputs | in_inputs].
  rewrite !outerArguments_packed in Heq.
  do 3 apply app_inv_head in Heq.
  apply Hfree in Heq; [| in_inputs | in_inputs].
  rewrite !orderFields_packed in Heq.
  unfold fixedFieldEncoding in Heq. rewrite <- !app_assoc in Heq.
  split_slot Heq E1. split_slot Heq E2. split_slot Heq E3.
  split_slot Heq E4. split_slot Heq E5. split_slot Heq E6.
  split_slot Heq E7. split_slot Heq E8. split_slot Heq E9.
  split_slot Heq E10. split_slot Heq E11.
  apply Hfree in E11; [| in_inputs | in_inputs].
  apply Hfree in Heq; [| in_inputs | in_inputs].
  apply Hne, order_ext; try assumption.
  - exact (address_inj _ _ A1 B1 E1).
  - exact (address_inj _ _ A2 B2 E2).
  - exact (address_inj _ _ A3 B3 E3).
  - exact (address_inj _ _ A4 B4 E4).
  - exact (uint256_inj _ _ A5 B5 E5).
  - exact (uint256_inj _ _ A6 B6 E6).
  - exact (uint256_inj _ _ A7 B7 E7).
  - exact (uint256_inj _ _ A8 B8 E8).
  - exact (uint256_inj _ _ A9 B9 E9).
  - exact (uint256_inj _ _ A10 B10 E10).
Qed.

Lemma valid_tamperedOrder : valid_order tamperedOrder.
Proof.
  unfold valid_order, is_address, is_uint256.
  repeat apply conj; vm_compute; first [discriminate | reflexivity].
Defined.

Lemma getOrderHash_field_sensitive_witness :
  fst (getOrderHash sampleOrder sampleContext) <>
  fst (getOrderHash tamperedOrder sampleContext).
Proof.
  apply getOrderHash_field_sensitive.
  - exact valid_sampleOrder.
  - exact valid_tamperedOrder.
  - vm_compute. discriminate.
  - apply collision_freeb_sound. vm_compute. reflexivity.
Defined.

(** C8. [getOrderHash] writes nothing: the context after a call
    (storage included) is the context before it. *)
Theorem getOrderHash_is_view (o : Order) (c : Context) :
  snd (getOrderHash o c) = c.
Proof. rewrite getOrderHash_run. reflexivity. Qed.

End LibOrderFacts.

(** ** Fills recorded against an order hash *)

Module StatusTrackerFacts.

Import StatusTracker.

Section Fills.

Variable takerAssetAmountOf : bytes -> Z.

Local Abbreviation consistent := (consistent takerAssetAmountOf).
Local Abbreviation recordFill := (recordFill takerAssetAmountOf).
Local Abbreviation recordFills := (recordFills takerAssetAmountOf).

Lemma consistent_empty (h : bytes) :
  0 <= takerAssetAmountOf h -> consistent h ∅.
Proof.
  intros Hrange. unfold consistent, getOrderInfo.
  rewrite lookup_empty. cbn. split; [lia |].
  intros Hzero [Hpos | [info Hsome]]; [lia | discriminate Hsome].
Qed.

Lemma getOrderInfo_insert (t : gmap bytes OrderInfo) (h : bytes)
    (info : OrderInfo) :
  getOrderInfo (<[h := info]> t) h = info.
Proof. unfold getOrderInfo. now rewrite lookup_insert_eq. Qed.

Lemma getOrderInfo_insert_ne (t : gmap bytes OrderInfo) (h h' : bytes)
    (info : OrderInfo) :
  h' <> h -> getOrderInfo (<[h' := info]> t) h = getOrderInfo t h.
Proof. intros Hne. unfold getOrderInfo. now rewrite lookup_insert_ne. Qed.

(** A fill against another hash leaves the record of [h] as it is. *)
Lemma recordFill_other (t : gmap bytes OrderInfo) (h h' : bytes)
    (amount : Z) :
  h' <> h ->
  getOrderInfo (fst (recordFill t h' amount)) h = getOrderInfo t h.
Proof.
  intros Hne. unfold recordFill.
  destruct (fill _ _ _); cbn [fst]; auto using getOrderInfo_insert_ne.
Qed.

Lemma recordFill_lookup_other (t : gmap bytes OrderInfo) (h h' : bytes)
    (amount : Z) :
  h' <> h -> fst (recordFill t h' amount) !! h = t !! h.
Proof.
  intros Hne. unfold recordFill.
  destruct (fill _ _ _); cbn [fst]; [| reflexivity].
  now rewrite lookup_insert_ne.
Qed.

(** The three outcomes of a fill against one record. *)
Lemma fill_cases (taker : Z) (info : OrderInfo) (amount : Z) :
  (isTerminal (orderStatus info) = true /\
   fill taker info amount = Rejected TerminalState) \/
  (isTerminal (orderStatus info) = false /\
   taker < orderTakerAssetFilledAmount info + amount /\
   fill taker info amount = Rejected FillOvershoot) \/
  (isTerminal (orderStatus info) = false /\
   orderTakerAssetFilledAmount info + amount <= taker /\
   fill taker info amount =
     Accepted (mkOrderInfo
                 (statusAfterFill taker
                    (orderTakerAssetFilledAmount info + amount)
                    (orderStatus info))
                 (orderHash info)
                 (orderTakerAssetFilledAmount info + amount))).
Proof.
  unfold fill. destruct (isTerminal (orderStatus info)); [now left | right].
  destruct (Z.ltb_spec taker (orderTakerAssetFilledAmount info + amount));
    [left | right]; auto.
Qed.

Lemma recordFill_same (t : gmap bytes OrderInfo) (h : bytes) (amount : Z) :
  recordFill t h amount =
  match fill (takerAssetAmountOf h) (getOrderInfo t h) amount with
  | Accepted info => (<[h := info]> t, Accepted info)
  | Rejected why => (t, Rejected why)
  end.
Proof. reflexivity. Qed.

Lemma recordFill_rejected (t : gmap bytes OrderInfo) (h : bytes)
    (amount : Z) :
  isRejected (snd (recordFill t h amount)) = true ->
  fst (recordFill t h amount) = t.
Proof.
  rewrite recordFill_same. destruct (fill _ _ _); cbn; congruence.
Qed.

(** A fill never lowers the filled amount of [h]. *)
Lemma recordFill_monotone (t : gmap bytes OrderInfo) (h h' : bytes)
    (amount : Z) :
  0 <= amount ->
  orderTakerAssetFilledAmount (getOrderInfo t h) <=
  orderTakerAssetFilledAmount
    (getOrderInfo (fst (recordFill t h' amount)) h).
Proof.
  intros Hamount. destruct (decide (h' = h)) as [-> | Hne].
  - rewrite recordFill_same.
    destruct (fill_cases (takerAssetAmountOf h) (getOrderInfo t h) amount)
      as [[_ ->] | [(_ & _ & ->) | (_ & _ & ->)]]; cbn [fst]; try lia.
    rewrite getOrderInfo_insert. cbn. lia.
  - rewrite recordFill_other by assumption. lia.
Qed.

Lemma recordFill_consistent (t : gmap bytes OrderInfo) (h h' : bytes)
    (amount : Z) :
  0 <= amount -> consistent h t ->
  consistent h (fst (recordFill t h' amount)).
Proof.
  intros Hamount Hcons. destruct (decide (h' = h)) as [-> | Hne].
  - rewrite recordFill_same.
    destruct (fill_cases (takerAssetAmountOf h) (getOrderInfo t h) amount)
      as [[_ ->] | [(_ & _ & ->) | (_ & Hle & ->)]]; cbn [fst]; auto.
    destruct Hcons as [Hrange _].
    unfold StatusTracker.consistent. rewrite getOrderInfo_insert. cbn.
    split; [lia |]. intros -> _. unfold statusAfterFill.
    now rewrite Z.eqb_refl.
  - unfold StatusTracker.consistent in *.
    now rewrite recordFill_other, recordFill_lookup_other.
Qed.

Lemma recordFills_consistent (fills : list (bytes * Z))
    (t : gmap bytes OrderInfo) (h : bytes) :
  Forall (fun f => 0 <= snd f) fills -> consistent h t ->
  consistent h (recordFills t fills).
Proof.
  intros Hfills. revert t.
  induction Hfills as [| [h' amount] fills Hamount _ IH]; intros t Hcons.
  - exact Hcons.
  - cbn [StatusTracker.recordFills]. apply IH.
    now apply recordFill_consistent.
Qed.

(** A record marked fully filled rejects every fill and stays as it
    is. *)
Lemma recordFill_full (t : gmap bytes OrderInfo) (h : bytes) (amount : Z) :
  orderStatus (getOrderInfo t h) = FULLY_FILLED ->
  recordFill t h amount = (t, Rejected TerminalState).
Proof.
  intros Hfull. rewrite recordFill_same. unfold fill.
  now rewrite Hfull.
Qed.


End Fills.



(** The statuses that the first two fills of the sample go through. *)
Example sample_fill_statuses :
  map (fun fills =>
         orderStatus (getOrderInfo (recordFills sampleAmountOf ∅ fills)
                                   sampleHash))
      [[]; [(sampleHash, 500)]; [(sampleHash, 500); (sampleHash, 1500)]]
  = [UNFILLED; PARTIALLY_FILLED; FULLY_FILLED].
Proof. vm_compute. reflexivity. Qed.

End StatusTrackerFacts.

(** ** The orderbook channel *)

Module OrderbookChannelFacts.

Import OrderbookChannel.

Section Channel.

Context {SubscriptionOpts Payload : Type}.
Variable parse : string -> JsError + ParserResult Payload.
Variable isOrderbookChannelSubscriptionOpts : SubscriptionOpts -> Outcome.
Variable isOrderbookChannelHandler :
  OrderbookChannelHandler SubscriptionOpts Payload -> Outcome.
Variable newWebSocket : string -> Outcome.

Local Abbreviation Subscription := (Subscription SubscriptionOpts Payload).
Local Abbreviation Channel := (Channel SubscriptionOpts Payload).
Local Abbreviation Event := (Event SubscriptionOpts Payload).

Lemma call_run (ev : Event) (o : Outcome) (ch : Channel)
    (tr : list Event) :
  call ev o ch tr =
  (match o with Returns => Normal tt | Throws e => Thrown e end,
   ch, tr ++ [ev]).
Proof. destruct o; reflexivity. Qed.

Lemma noDataCall_errorCalls (subs : list Subscription) (i : nat)
    (e : JsError) :
  noDataCall (errorCallsFrom i subs e).
Proof.
  revert i. induction subs as [| s subs IH]; intros i; cbn.
  - constructor.
  - constructor; [reflexivity | apply IH].
Qed.

(** Alerting is a run of [onError] calls and nothing else, and it
    leaves the channel as it is. *)
Lemma forEach_alert_shape (error : JsError) (subs : list Subscription)
    (i : nat) (ch : Channel) (tr : list Event) :
  exists result new,
    forEachFrom i subs (alertHandler error) ch tr = (result, ch, tr ++ new) /\
    noDataCall new.
Proof.
  revert i tr. induction subs as [| s subs IH]; intros i tr.
  - exists (Normal tt), []. rewrite app_nil_r. split; [reflexivity | constructor].
  - cbn [forEachFrom]. unfold bind at 1. unfold alertHandler at 1.
    rewrite call_run.
    destruct (onError (handler s) (subscriptionOpts s) error) as [| e].
    + destruct (IH (S i) (tr ++ [CallOnError i (subscriptionOpts s) error]))
        as (result & new & -> & Hnew).
      exists result, (CallOnError i (subscriptionOpts s) error :: new).
      rewrite <- app_assoc. split; [reflexivity |].
      constructor; [reflexivity | exact Hnew].
    + exists (Thrown e), [CallOnError i (subscriptionOpts s) error].
      split; [reflexivity |]. constructor; [reflexivity | constructor].
Qed.

(** When no [onError] throws, every subscription is alerted, once and
    in order. *)
Lemma forEach_alert_returns (error : JsError) (subs : list Subscription)
    (i : nat) (ch : Channel) (tr : list Event) :
  onErrorReturns subs ->
  forEachFrom i subs (alertHandler error) ch tr =
  (Normal tt, ch, tr ++ errorCallsFrom i subs error).
Proof.
  revert i tr. induction subs as [| s subs IH]; intros i tr Hret.
  - cbn. now rewrite app_nil_r.
  - cbn [forEachFrom errorCallsFrom]. unfold bind at 1.
    unfold alertHandler at 1. rewrite call_run.
    rewrite (Hret s error) by (left; reflexivity).
    rewrite IH.
    + now rewrite <- app_assoc.
    + intros s' e' Hin. apply Hret. now right.
Qed.

Lemma alertAll_run (error : JsError) (ch : Channel) (tr : list Event) :
  _alertAllHandlersToError error ch tr =
  forEachFrom 0 (_subscriptions ch) (alertHandler error) ch tr.
Proof. reflexivity. Qed.

Lemma alertAll_shape (error : JsError) (ch : Channel) (tr : list Event) :
  exists result new,
    _alertAllHandlersToError error ch tr = (result, ch, tr ++ new) /\
    noDataCall new /\
    (onErrorReturns (_subscriptions ch) ->
     result = Normal tt /\
     new = errorCallsFrom 0 (_subscriptions ch) error).
Proof.
  rewrite alertAll_run.
  destruct (forEach_alert_shape error (_subscriptions ch) 0 ch tr)
    as (result & new & E & Hnew).
  exists result, new. repeat apply conj; auto.
  intros Hret. rewrite forEach_alert_returns in E by assumption.
  injection E as Hresult E. apply app_inv_head in E. auto.
Qed.

Lemma noDataCall_In (new : list Event) (ev : Event) :
  noDataCall new -> In ev new -> isDataCall ev = true -> False.
Proof.
  unfold noDataCall. rewrite List.Forall_forall. intros Hall Hin Hd.
  specialize (Hall ev Hin). congruence.
Qed.

Lemma noDataCall_filter (new : list Event) :
  noDataCall new -> List.filter isDataCall new = [].
Proof.
  induction 1 as [| ev new Hev _ IH]; cbn; [reflexivity |].
  now rewrite Hev.
Qed.

(** The four paths through [_handleWebSocketMessage]. *)
Lemma handle_no_data (message : Message) (ch : Channel)
    (tr : list Event) :
  data message = None ->
  _handleWebSocketMessage parse message ch tr =
  _alertAllHandlersToError (Error "Message does not contain utf8Data")
                           ch tr.
Proof. intros H. unfold _handleWebSocketMessage. now rewrite H. Qed.

Lemma handle_parser_throws (message : Message) (utf8Data : string)
    (e : JsError) (ch : Channel) (tr : list Event) :
  data message = Some utf8Data -> parse utf8Data = inl e ->
  _handleWebSocketMessage parse message ch tr =
  _alertAllHandlersToError e ch tr.
Proof.
  intros Hdata Hparse.
  unfold _handleWebSocketMessage, tryCatch, bind, parseMessage.
  now rewrite Hdata, Hparse.
Qed.

Lemma handle_unknown_requestId (message : Message) (utf8Data : string)
    (r : ParserResult Payload) (ch : Channel) (tr : list Event) :
  data message = Some utf8Data -> parse utf8Data = inr r ->
  at_index (_subscriptions ch) (requestId r) = None ->
  _handleWebSocketMessage parse message ch tr =
  tryCatch
    (_alertAllHandlersToError
       (Error ("Message has unknown requestId: " +:+ utf8Data)))
    (fun error => _alertAllHandlersToError error) ch tr.
Proof.
  intros Hdata Hparse Hat.
  unfold _handleWebSocketMessage, tryCatch, bind, parseMessage.
  rewrite Hdata, Hparse. cbn [ret this]. now rewrite Hat.
Qed.

Lemma handle_routed (message : Message) (utf8Data : string)
    (r : ParserResult Payload) (s : Subscription) (ch : Channel)
    (tr : list Event) :
  data message = Some utf8Data -> parse utf8Data = inr r ->
  at_index (_subscriptions ch) (requestId r) = Some s ->
  _handleWebSocketMessage parse message ch tr =
  tryCatch
    (match type r with
     | Snapshot =>
         call (CallOnSnapshot (Z.to_nat (requestId r))
                              (subscriptionOpts s) (payload r))
              (onSnapshot (handler s) (subscriptionOpts s) (payload r))
     | Update =>
         call (CallOnUpdate (Z.to_nat (requestId r))
                            (subscriptionOpts s) (payload r))
              (onUpdate (handler s) (subscriptionOpts s) (payload r))
     | Unknown =>
         call (CallOnError (Z.to_nat (requestId r)) (subscriptionOpts s)
                 (Error ("Message has unknown type parameter: "
                         +:+ utf8Data)))
              (onError (handler s) (subscriptionOpts s)
                 (Error ("Message has unknown type parameter: "
                         +:+ utf8Data)))
     end)
    (fun error => _alertAllHandlersToError error) ch tr.
Proof.
  intros Hdata Hparse Hat.
  unfold _handleWebSocketMessage, tryCatch, bind, parseMessage.
  rewrite Hdata, Hparse. cbn [ret this]. now rewrite Hat.
Qed.

(** One call to a callback under the [try]: the call, and the alerts
    of the [catch] if it throws. *)
Lemma tryCatch_call (ev : Event) (o : Outcome) (ch : Channel)
    (tr : list Event) :
  exists result new,
    tryCatch (call ev o)
             (fun error => _alertAllHandlersToError error) ch tr
    = (result, ch, tr ++ ev :: new) /\
    noDataCall new.
Proof.
  unfold tryCatch. rewrite call_run. destruct o as [| e].
  - exists (Normal tt), []. split; [reflexivity | constructor].
  - destruct (alertAll_shape e ch (tr ++ [ev]))
      as (result & new & -> & Hnew & _).
    exists result, new. rewrite <- app_assoc. split; [reflexivity | exact Hnew].
Qed.

Lemma undeliverable_inv (message : Message) (subs : list Subscription)
    (error : JsError) :
  undeliverable parse message subs error ->
  (data message = None /\
   error = Error "Message does not contain utf8Data") \/
  (exists u, data message = Some u /\ parse u = inl error) \/
  (exists u r, data message = Some u /\ parse u = inr r /\
               at_index subs (requestId r) = None /\
               error = Error ("Message has unknown requestId: " +:+ u)).
Proof.
  intros [Hd | u e Hd Hp | u r Hd Hp Ha]; eauto 8.
Qed.

Lemma noDataCall_app (a b : list Event) :
  noDataCall a -> noDataCall b -> noDataCall (a ++ b).
Proof. unfold noDataCall. intros. now apply Forall_app. Qed.

(** C10 (as amended). A call of [_handleWebSocketMessage] adds events
    [new] to the trace and leaves the channel as it is, and:

    - if the message has no data, or the parser throws, or the parsed
      [requestId] is the index of no subscription, then no [onSnapshot]
      and no [onUpdate] is called and, provided that no [onError]
      callback throws, the call returns and [new] is one [onError] call
      on every subscription, in order;
    - a call of [onSnapshot] (of [onUpdate]) in [new] is the only such
      call in it, is on the subscription that the parsed [requestId]
      indexes, and occurs only if parsing succeeded with type
      [Snapshot] (with type [Update]). *)
Theorem handleWebSocketMessage_routing (message : Message) (ch : Channel)
    (tr : list Event) :
  exists result new,
    _handleWebSocketMessage parse message ch tr = (result, ch, tr ++ new) /\
    (forall error,
       undeliverable parse message (_subscriptions ch) error ->
       noDataCall new /\
       (onErrorReturns (_subscriptions ch) ->
        result = Normal tt /\
        new = errorCallsFrom 0 (_subscriptions ch) error)) /\
    (forall ev,
       In ev new -> isDataCall ev = true ->
       List.filter isDataCall new = [ev] /\
       exists utf8Data r s,
         data message = Some utf8Data /\
         parse utf8Data = inr r /\
         at_index (_subscriptions ch) (requestId r) = Some s /\
         ((type r = Snapshot /\
           ev = CallOnSnapshot (Z.to_nat (requestId r))
                               (subscriptionOpts s) (payload r)) \/
          (type r = Update /\
           ev = CallOnUpdate (Z.to_nat (requestId r))
                             (subscriptionOpts s) (payload r)))).
Proof.
  destruct (data message) as [utf8Data |] eqn:Hdata.
  2: {
    (* no data *)
    rewrite handle_no_data by assumption.
    destruct (alertAll_shape
                (Error "Message does not contain utf8Data") ch tr)
      as (result & new & E & Hnew & Hret).
    exists result, new. repeat apply conj; [exact E | |].
    - intros error Hund. split; [exact Hnew |].
      destruct (undeliverable_inv _ _ _ Hund)
        as [[_ ->] | [(u & Hd & _) | (u & r & Hd & _)]];
        [exact Hret | congruence | congruence].
    - intros ev Hin Hd. destruct (noDataCall_In new ev Hnew Hin Hd). }
  destruct (parse utf8Data) as [e | r] eqn:Hparse.
  { (* the parser throws *)
    rewrite (handle_parser_throws message utf8Data e) by assumption.
    destruct (alertAll_shape e ch tr) as (result & new & E & Hnew & Hret).
    exists result, new. repeat apply conj; [exact E | |].
    - intros error Hund. split; [exact Hnew |].
      destruct (undeliverable_inv _ _ _ Hund)
        as [[Hd _] | [(u & Hd & Hp) | (u & r & Hd & Hp & _)]];
        [congruence | | congruence].
      assert (u = utf8Data) by congruence. subst u.
      assert (error = e) by congruence. subst error. exact Hret.
    - intros ev Hin Hd. destruct (noDataCall_In new ev Hnew Hin Hd). }
  destruct (at_index (_subscriptions ch) (requestId r)) as [s |] eqn:Hat.
  2: {
    (* no subscription at the parsed requestId *)
    rewrite (handle_unknown_requestId message utf8Data r) by assumption.
    unfold tryCatch.
    destruct (alertAll_shape
                (Error ("Message has unknown requestId: " +:+ utf8Data))
                ch tr)
      as (r1 & new1 & E1 & Hnew1 & Hret1).
    rewrite E1. destruct r1 as [[] | e1].
    - exists (Normal tt), new1. repeat apply conj; [reflexivity | |].
      + intros error Hund. split; [exact Hnew1 |].
        destruct (undeliverable_inv _ _ _ Hund)
          as [[Hd _] | [(u & Hd & Hp) | (u & r' & Hd & Hp & _ & ->)]];
          [congruence | congruence |].
        assert (u = utf8Data) by congruence. subst u. exact Hret1.
      + intros ev Hin Hd. destruct (noDataCall_In new1 ev Hnew1 Hin Hd).
    - destruct (alertAll_shape e1 ch (tr ++ new1))
        as (r2 & new2 & E2 & Hnew2 & _).
      exists r2, (new1 ++ new2). rewrite app_assoc.
      repeat apply conj; [exact E2 | |].
      + intros error Hund. split; [now apply noDataCall_app |].
        intros Hret. destruct (Hret1 Hret) as [Habs _]. discriminate.
      + intros ev Hin Hd.
        destruct (noDataCall_In (new1 ++ new2) ev
                    (noDataCall_app _ _ Hnew1 Hnew2) Hin Hd). }
  (* the message is routed to subscription [s] *)
  rewrite (handle_routed message utf8Data r s) by assumption.
  assert (Hdeliverable : forall error,
            ~ undeliverable parse message (_subscriptions ch) error).
  { intros error Hund.
    destruct (undeliverable_inv _ _ _ Hund)
      as [[Hd _] | [(u & Hd & Hp) | (u & r' & Hd & Hp & Ha & _)]];
      [congruence | congruence |].
    assert (u = utf8Data) by congruence. subst u.
    assert (r' = r) by congruence. subst r'. congruence. }
  destruct (type r) eqn:Htype;
    match goal with
    | |- context [tryCatch (call ?ev ?o)] =>
        destruct (tryCatch_call ev o ch tr) as (result & new & E & Hnew);
        exists result, (ev :: new)
    end;
    (repeat apply conj;
     [ exact E
     | intros error Hund; destruct (Hdeliverable error Hund)
     | intros ev' [<- | Hin] Hd;
       [| destruct (noDataCall_In new ev' Hnew Hin Hd)] ]).
  - (* Snapshot *)
    split.
    + cbn. now rewrite (noDataCall_filter new Hnew).
    + exists utf8Data, r, s. repeat apply conj; auto.
  - (* Update *)
    split.
    + cbn. now rewrite (noDataCall_filter new Hnew).
    + exists utf8Data, r, s. repeat apply conj; auto.
  - (* any other type: the call is an onError *)
    discriminate Hd.
Qed.

Lemma sendMessage_run (message : SubscribeMessage SubscriptionOpts)
    (ch : Channel) (tr : list Event) :
  _sendMessage message ch tr =
  (Normal tt, ch,
   tr ++ match _clientIfExists ch with
         | Some client =>
             match readyState client with
             | OPEN => [Send message]
             | _ => []
             end
         | None => []
         end).
Proof.
  unfold _sendMessage, bind, this.
  destruct (_clientIfExists ch) as [client |];
    [destruct (readyState client) |]; cbn; now rewrite ?app_nil_r.
Qed.

(** A call of [subscribe] that fails an argument assertion throws and
    leaves the channel and the trace as they were. *)
Lemma subscribe_throws (opts : SubscriptionOpts)
    (h : OrderbookChannelHandler SubscriptionOpts Payload)
    (ch : Channel) (tr : list Event) (e : JsError) :
  isOrderbookChannelSubscriptionOpts opts = Throws e \/
  (isOrderbookChannelSubscriptionOpts opts = Returns /\
   isOrderbookChannelHandler h = Throws e) ->
  subscribe isOrderbookChannelSubscriptionOpts isOrderbookChannelHandler
            newWebSocket
            opts h ch tr = (Thrown e, ch, tr).
Proof.
  intros [Hopts | [Hopts Hhandler]]; unfold subscribe, bind at 1;
    rewrite Hopts; cbn [complete ret throw]; [reflexivity |].
  unfold bind at 1. rewrite Hhandler. reflexivity.
Qed.

(** What a call of [subscribe] that passes the assertions leaves: the
    subscription is appended on every path; the client is the one that
    exists, or a new connecting one, or none when the construction of the
    socket throws. *)
Lemma subscribe_run (opts : SubscriptionOpts)
    (h : OrderbookChannelHandler SubscriptionOpts Payload)
    (ch : Channel) (tr : list Event) :
  isOrderbookChannelSubscriptionOpts opts = Returns ->
  isOrderbookChannelHandler h = Returns ->
  subscribe isOrderbookChannelSubscriptionOpts isOrderbookChannelHandler
            newWebSocket opts h ch tr =
  match _clientIfExists ch with
  | Some client =>
      (Normal tt,
       mkChannel (_apiEndpointUrl ch) (Some client)
                 (_subscriptions ch ++ [mkSubscription opts h]),
       tr ++ match readyState client with
             | OPEN => [Send (messageFor (_subscriptions ch) opts)]
             | _ => []
             end)
  | None =>
      match newWebSocket (_apiEndpointUrl ch) with
      | Returns =>
          (Normal tt,
           mkChannel (_apiEndpointUrl ch)
             (Some (mkClient (_apiEndpointUrl ch) CONNECTING
                             (messageFor (_subscriptions ch) opts)))
             (_subscriptions ch ++ [mkSubscription opts h]),
           tr)
      | Throws e =>
          (Thrown e,
           mkChannel (_apiEndpointUrl ch) None
                     (_subscriptions ch ++ [mkSubscription opts h]),
           tr)
      end
  end.
Proof.
  intros Hopts Hhandler.
  assert (Hid : Z.of_nat (length (_subscriptions ch ++ [mkSubscription opts h]))
                - 1 = Z.of_nat (length (_subscriptions ch))).
  { rewrite length_app. cbn [length]. lia. }
  unfold subscribe, bind at 1. rewrite Hopts. cbn [complete ret].
  unfold bind at 1. rewrite Hhandler. cbn [complete ret].
  unfold bind at 1. cbn [this]. unfold bind at 1. cbn [setChannel].
  unfold bind at 1.
  cbn [this _subscriptions _clientIfExists _apiEndpointUrl].
  rewrite Hid. fold (messageFor (_subscriptions ch) opts).
  destruct (_clientIfExists ch) as [client |] eqn:Hclient.
  - rewrite sendMessage_run. cbn [_clientIfExists]. reflexivity.
  - unfold bind.
    destruct (newWebSocket (_apiEndpointUrl ch)); reflexivity.
Qed.

(** C9 (as amended). A call of [subscribe] whose two arguments pass
    the argument assertions appends exactly one subscription to the list
    and leaves the others at their indices; the [requestId] of its
    subscribe message is the zero-based index of the new subscription, so
    that the list read at that [requestId] is the new subscription. This
    holds on every path of such a call: the call returns, except that what
    the construction of the socket throws leaves the call, after the
    subscription has been appended. The message is kept for the [onopen]
    callback when the call creates the client, and is sent at once when a
    client exists and is open. *)
Theorem subscribe_appends_one (opts : SubscriptionOpts)
    (h : OrderbookChannelHandler SubscriptionOpts Payload)
    (ch : Channel) (tr : list Event) :
  isOrderbookChannelSubscriptionOpts opts = Returns ->
  isOrderbookChannelHandler h = Returns ->
  let newSubscription := mkSubscription opts h in
  let index := length (_subscriptions ch) in
  let subscribeMessage :=
    mkSubscribeMessage "subscribe" "orderbook" (Z.of_nat index) opts in
  exists result ch' tr',
    subscribe isOrderbookChannelSubscriptionOpts isOrderbookChannelHandler
              newWebSocket opts h ch tr = (result, ch', tr') /\
    _subscriptions ch' = _subscriptions ch ++ [newSubscription] /\
    length (_subscriptions ch') = S (length (_subscriptions ch)) /\
    (forall i s, _subscriptions ch !! i = Some s ->
                 _subscriptions ch' !! i = Some s) /\
    at_index (_subscriptions ch') (msg_requestId subscribeMessage)
      = Some newSubscription /\
    match _clientIfExists ch with
    | None =>
        tr' = tr /\
        match newWebSocket (_apiEndpointUrl ch) with
        | Returns =>
            result = Normal tt /\
            _clientIfExists ch' =
              Some (mkClient (_apiEndpointUrl ch) CONNECTING subscribeMessage)
        | Throws e =>
            result = Thrown e /\ _clientIfExists ch' = None
        end
    | Some client =>
        result = Normal tt /\
        _clientIfExists ch' = Some client /\
        tr' = tr ++ match readyState client with
                    | OPEN => [Send subscribeMessage]
                    | _ => []
                    end
    end.
Proof.
  intros Hopts Hhandler. cbn zeta.
  set (newSubscription := mkSubscription opts h).
  set (index := length (_subscriptions ch)).
  assert (Hat : at_index (_subscriptions ch ++ [newSubscription])
                         (Z.of_nat index) = Some newSubscription).
  { unfold at_index. destruct (Z.leb_spec 0 (Z.of_nat index)); [| lia].
    rewrite Nat2Z.id. subst index.
    rewrite lookup_app_r by lia. now rewrite Nat.sub_diag. }
  assert (Hkeep : forall i s, _subscriptions ch !! i = Some s ->
            (_subscriptions ch ++ [newSubscription]) !! i = Some s).
  { intros i s Hi. now apply lookup_app_l_Some. }
  assert (Hlen : length (_subscriptions ch ++ [newSubscription])
                 = S (length (_subscriptions ch))).
  { rewrite length_app. cbn [length]. lia. }
  rewrite (subscribe_run opts h ch tr Hopts Hhandler).
  fold newSubscription. unfold messageFor. fold index.
  destruct (_clientIfExists ch) as [client |] eqn:Hclient.
  - eexists _, _, _. split; [reflexivity |].
    cbn [_subscriptions _clientIfExists msg_requestId].
    repeat apply conj; auto.
  - destruct (newWebSocket (_apiEndpointUrl ch)) as [| e];
      (eexists _, _, _; split; [reflexivity |]);
      cbn [_subscriptions _clientIfExists msg_requestId];
      repeat apply conj; auto.
Qed.

End Channel.

(** C9 fails as stated: a call of [subscribe] whose options do not pass
    the schema assertion throws before the list is touched, and appends
    no subscription. *)
Lemma subscribe_rejected_appends_nothing :
  subscribe rejectEmptyOpts acceptHandler acceptWsUrl
      "" quietHandler newChannel []
  = (Thrown (Error "Expected subscriptionOpts to conform to schema"),
     newChannel, []) /\
  length (_subscriptions newChannel) = 0%nat.
Proof. split; reflexivity. Qed.

Lemma subscribe_appends_one_witness :
  exists ch',
    subscribe rejectEmptyOpts acceptHandler acceptWsUrl "ZRX-WETH" quietHandler
              quietSubscriptions []
    = (Normal tt, ch',
       [Send (mkSubscribeMessage "subscribe" "orderbook" 2 "ZRX-WETH")]) /\
    at_index (_subscriptions ch') 2
      = Some (mkSubscription "ZRX-WETH" quietHandler).
Proof.
  destruct (subscribe_appends_one rejectEmptyOpts acceptHandler acceptWsUrl
              "ZRX-WETH" quietHandler quietSubscriptions []
              eq_refl eq_refl)
    as (result & ch' & tr' & Hrun & _ & _ & _ & Hat & Hresult & _ & Htr).
  exists ch'. cbn in Htr, Hresult. subst tr' result.
  split; [exact Hrun | exact Hat].
Defined.

(** C10 fails as stated: when the [onError] of the first subscription
    throws, a message without data reaches that callback only; the
    second subscription is not alerted and the error leaves
    [_handleWebSocketMessage]. *)
Lemma throwing_onError_stops_the_alert :
  _handleWebSocketMessage failingParser (mkMessage None)
                          twoSubscriptions []
  = (Thrown (Error "Message does not contain utf8Data"),
     twoSubscriptions,
     [CallOnError 0 "ZRX-WETH" (Error "Message does not contain utf8Data")])
  /\ ~ In (CallOnError 1 "DAI-WETH"
             (Error "Message does not contain utf8Data"))
          [CallOnError 0 "ZRX-WETH"
             (Error "Message does not contain utf8Data") : Event string Z].
Proof.
  split; [reflexivity |]. intros [H | []]. discriminate H.
Qed.

Lemma quietSubscriptions_onError :
  onErrorReturns (_subscriptions quietSubscriptions).
Proof.
  intros s e [<- | [<- | []]]; reflexivity.
Defined.

Lemma handleWebSocketMessage_routing_witness :
  _handleWebSocketMessage failingParser (mkMessage (Some "{"))
                          quietSubscriptions []
  = (Normal tt, quietSubscriptions,
     [CallOnError 0 "ZRX-WETH" (Error "Unexpected token");
      CallOnError 1 "DAI-WETH" (Error "Unexpected token")]).
Proof.
  destruct (handleWebSocketMessage_routing failingParser
              (mkMessage (Some "{")) quietSubscriptions [])
    as (result & new & Hrun & Hundeliverable & _).
  destruct (Hundeliverable (Error "Unexpected token")
              (ParserThrows failingParser (mkMessage (Some "{"))
                 (_subscriptions quietSubscriptions) "{"
                 (Error "Unexpected token") eq_refl eq_refl))
    as [_ Hall].
  destruct (Hall quietSubscriptions_onError) as [-> ->].
  exact Hrun.
Defined.

End OrderbookChannelFacts.

(** ** The life of a channel *)

Module ChannelLifeFacts.

Import OrderbookChannel OrderbookChannelFacts.

Section Channel.

Context {SubscriptionOpts Payload : Type}.
Variable parse : string -> JsError + ParserResult Payload.
Variable isOrderbookChannelSubscriptionOpts : SubscriptionOpts -> Outcome.
Variable isOrderbookChannelHandler :
  OrderbookChannelHandler SubscriptionOpts Payload -> Outcome.
Variable newWebSocket : string -> Outcome.
Variable isUri : string -> Outcome.

Local Abbreviation Subscription := (Subscription SubscriptionOpts Payload).
Local Abbreviation Channel := (Channel SubscriptionOpts Payload).
Local Abbreviation Event := (Event SubscriptionOpts Payload).
Local Abbreviation Handler := (OrderbookChannelHandler SubscriptionOpts Payload).
Local Abbreviation Action := (Action SubscriptionOpts Payload).
Local Abbreviation subscribe :=
  (subscribe isOrderbookChannelSubscriptionOpts isOrderbookChannelHandler
             newWebSocket).
Local Abbreviation handle := (_handleWebSocketMessage parse).
Local Abbreviation perform :=
  (perform parse isOrderbookChannelSubscriptionOpts isOrderbookChannelHandler
           newWebSocket).
Local Abbreviation performAll :=
  (performAll parse isOrderbookChannelSubscriptionOpts
              isOrderbookChannelHandler newWebSocket).
Local Abbreviation accepted :=
  (accepted isOrderbookChannelSubscriptionOpts isOrderbookChannelHandler).

Lemma onopen_run (ch : Channel) (tr : list Event) :
  onopen ch tr =
  match _clientIfExists ch with
  | Some client =>
      (Normal tt,
       mkChannel (_apiEndpointUrl ch)
                 (Some (mkClient (url client) OPEN (onopenMessage client)))
                 (_subscriptions ch),
       tr ++ [Send (onopenMessage client)])
  | None => (Normal tt, ch, tr)
  end.
Proof.
  unfold onopen, bind at 1. cbn [this].
  destruct (_clientIfExists ch) as [client |]; [| reflexivity].
  unfold bind. cbn [setChannel]. rewrite sendMessage_run. reflexivity.
Qed.

Lemma close_run (ch : Channel) (tr : list Event) :
  close ch tr =
  (Normal tt,
   match _clientIfExists ch with
   | Some client =>
       mkChannel (_apiEndpointUrl ch)
         (Some (mkClient (url client)
                         match readyState client with
                         | CLOSED => CLOSED
                         | _ => CLOSING
                         end
                         (onopenMessage client)))
         (_subscriptions ch)
   | None => ch
   end, tr).
Proof.
  unfold close, bind. cbn [this].
  destruct (_clientIfExists ch) as [client |]; reflexivity.
Qed.

Lemma at_index_Some {A : Type} (l : list A) (i : Z) (x : A) :
  at_index l i = Some x <-> 0 <= i /\ l !! Z.to_nat i = Some x.
Proof.
  unfold at_index. destruct (Z.leb_spec 0 i); split.
  - auto.
  - tauto.
  - discriminate.
  - lia.
Qed.

Lemma at_index_app {A : Type} (l more : list A) (i : Z) (x : A) :
  at_index l i = Some x -> at_index (l ++ more) i = Some x.
Proof.
  rewrite !at_index_Some. intros [Hi Hl]. split; [exact Hi |].
  now apply lookup_app_l_Some.
Qed.

Lemma at_index_new {A : Type} (l : list A) (x : A) :
  at_index (l ++ [x]) (Z.of_nat (length l)) = Some x.
Proof.
  apply at_index_Some. split; [lia |]. rewrite Nat2Z.id.
  rewrite lookup_app_r by lia. now rewrite Nat.sub_diag.
Qed.

Lemma frameOf_app (subs more : list Subscription)
    (f : SubscribeMessage SubscriptionOpts) :
  frameOf subs f -> frameOf (subs ++ more) f.
Proof.
  intros (Ht & Hc & s & Hat & Hp). repeat split; auto.
  exists s. split; [now apply at_index_app | exact Hp].
Qed.

Lemma eventOf_app (subs more : list Subscription) (ev : Event) :
  eventOf subs ev -> eventOf (subs ++ more) ev.
Proof.
  destruct ev; cbn; try (intros (s & Hs & Ho); exists s; split;
                         [now apply lookup_app_l_Some | exact Ho]).
  apply frameOf_app.
Qed.

Lemma frameOf_messageFor (subs : list Subscription)
    (opts : SubscriptionOpts) (h : Handler) :
  frameOf (subs ++ [mkSubscription opts h]) (messageFor subs opts).
Proof.
  repeat split. exists (mkSubscription opts h).
  split; [apply at_index_new | reflexivity].
Qed.

(** A loop of [_.forEach] whose iteratee makes one call to a callback of
    the subscription it is given: the channel stays, and every event added
    is such a call on a subscription of the list, at its index. *)
Lemma forEachFrom_calls (f : nat -> Subscription -> Method unit)
    (ev : nat -> Subscription -> Event)
    (out : nat -> Subscription -> Outcome) :
  (forall i s, f i s = call (ev i s) (out i s)) ->
  forall (l : list Subscription) (i : nat) (ch : Channel) (tr : list Event),
  exists result new,
    forEachFrom i l f ch tr = (result, ch, tr ++ new) /\
    Forall (fun e => exists j s, l !! j = Some s /\ e = ev (i + j)%nat s) new.
Proof.
  intros Hf l. induction l as [| s l IH]; intros i ch tr.
  - exists (Normal tt), []. rewrite app_nil_r. split; [reflexivity | constructor].
  - cbn [forEachFrom]. unfold bind at 1. rewrite Hf, call_run.
    destruct (out i s) as [| e].
    + destruct (IH (S i) ch (tr ++ [ev i s])) as (result & new & -> & Hnew).
      exists result, (ev i s :: new). rewrite <- app_assoc.
      split; [reflexivity |]. constructor.
      * exists 0%nat, s. split; [reflexivity | now rewrite Nat.add_0_r].
      * eapply Forall_impl; [exact Hnew |].
        intros e' (j & s' & Hj & ->). exists (S j), s'.
        split; [exact Hj | f_equal; lia].
    + exists (Thrown e), [ev i s]. split; [reflexivity |].
      constructor; [| constructor].
      exists 0%nat, s. split; [reflexivity | now rewrite Nat.add_0_r].
Qed.

Lemma alertAll_events (error : JsError) (ch : Channel) (tr : list Event) :
  exists result new,
    _alertAllHandlersToError error ch tr = (result, ch, tr ++ new) /\
    Forall (eventOf (_subscriptions ch)) new.
Proof.
  rewrite alertAll_run.
  destruct (forEachFrom_calls (alertHandler error)
              (fun i s => CallOnError i (subscriptionOpts s) error)
              (fun i s => onError (handler s) (subscriptionOpts s) error)
              (fun i s => eq_refl) (_subscriptions ch) 0 ch tr)
    as (result & new & E & Hnew).
  exists result, new. split; [exact E |].
  eapply Forall_impl; [exact Hnew |].
  intros e (j & s & Hj & ->). cbn. exists s. split; [exact Hj | reflexivity].
Qed.

Lemma onclose_events (ch : Channel) (tr : list Event) :
  exists result new,
    onclose ch tr = (result, ch, tr ++ new) /\
    Forall (eventOf (_subscriptions ch)) new.
Proof.
  unfold onclose, bind. cbn [this]. unfold forEach.
  destruct (forEachFrom_calls
              (fun i s => call (CallOnClose i (subscriptionOpts s))
                               (onClose (handler s) (subscriptionOpts s)))
              (fun i s => CallOnClose i (subscriptionOpts s))
              (fun i s => onClose (handler s) (subscriptionOpts s))
              (fun i s => eq_refl) (_subscriptions ch) 0 ch tr)
    as (result & new & E & Hnew).
  exists result, new. split; [exact E |].
  eapply Forall_impl; [exact Hnew |].
  intros e (j & s & Hj & ->). cbn. exists s. split; [exact Hj | reflexivity].
Qed.

(** One call under the [try] when no [onError] throws: the call, then,
    if it throws, an alert of every subscription with what it threw. *)
Lemma tryCatch_call_returns (ev : Event) (o : Outcome) (ch : Channel)
    (tr : list Event) :
  onErrorReturns (_subscriptions ch) ->
  tryCatch (call ev o) (fun error => _alertAllHandlersToError error) ch tr =
  (Normal tt, ch,
   tr ++ ev :: match o with
               | Returns => []
               | Throws e => errorCallsFrom 0 (_subscriptions ch) e
               end).
Proof.
  intros Hret. unfold tryCatch. rewrite call_run. destruct o as [| e].
  - reflexivity.
  - rewrite alertAll_run, forEach_alert_returns by assumption.
    now rewrite <- app_assoc.
Qed.

Lemma alertAll_returns (error : JsError) (ch : Channel) (tr : list Event) :
  onErrorReturns (_subscriptions ch) ->
  _alertAllHandlersToError error ch tr =
  (Normal tt, ch, tr ++ errorCallsFrom 0 (_subscriptions ch) error).
Proof.
  intros Hret. rewrite alertAll_run. now apply forEach_alert_returns.
Qed.

Lemma handle_routed_call (message : Message) (utf8Data : string)
    (r : ParserResult Payload) (s : Subscription) (ch : Channel)
    (tr : list Event) :
  data message = Some utf8Data -> parse utf8Data = inr r ->
  at_index (_subscriptions ch) (requestId r) = Some s ->
  handle message ch tr =
  tryCatch (call (routedCall utf8Data r s) (routedOutcome utf8Data r s))
           (fun error => _alertAllHandlersToError error) ch tr.
Proof.
  intros Hdata Hparse Hat.
  rewrite (handle_routed parse message utf8Data r s) by assumption.
  unfold routedCall, routedOutcome. destruct (type r); reflexivity.
Qed.

Lemma eventOf_routedCall (utf8Data : string) (r : ParserResult Payload)
    (s : Subscription) (subs : list Subscription) :
  at_index subs (requestId r) = Some s ->
  eventOf subs (routedCall utf8Data r s).
Proof.
  intros Hat. apply at_index_Some in Hat as [_ Hl].
  unfold routedCall. destruct (type r); cbn; exists s; auto.
Qed.

(** A message never changes the channel, and every event that it adds is
    a call to a callback of a subscription, with the options of that
    subscription. *)
Lemma handle_events (message : Message) (ch : Channel) (tr : list Event) :
  exists result new,
    handle message ch tr = (result, ch, tr ++ new) /\
    Forall (eventOf (_subscriptions ch)) new /\
    Forall (fun ev => match ev with
                      | Send _ | CallOnClose _ _ => False
                      | _ => True
                      end) new.
Proof.
  assert (Halert : forall error tr0,
            exists result new,
              _alertAllHandlersToError error ch tr0 = (result, ch, tr0 ++ new) /\
              Forall (eventOf (_subscriptions ch)) new /\
              Forall (fun ev : Event => match ev with
                                | Send _ | CallOnClose _ _ => False
                                | _ => True
                                end) new).
  { intros error tr0. rewrite alertAll_run.
    destruct (forEachFrom_calls (alertHandler error)
                (fun i s => CallOnError i (subscriptionOpts s) error)
                (fun i s => onError (handler s) (subscriptionOpts s) error)
                (fun i s => eq_refl) (_subscriptions ch) 0 ch tr0)
      as (result & new & E & Hnew).
    exists result, new. split; [exact E |]. split.
    - eapply Forall_impl; [exact Hnew |].
      intros e (j & s & Hj & ->). cbn. exists s. auto.
    - eapply Forall_impl; [exact Hnew |].
      intros e (j & s & Hj & ->). exact I. }
  destruct (data message) as [utf8Data |] eqn:Hdata.
  2: { rewrite handle_no_data by assumption. apply Halert. }
  destruct (parse utf8Data) as [e | r] eqn:Hparse.
  { rewrite (handle_parser_throws parse message utf8Data e) by assumption.
    apply Halert. }
  destruct (at_index (_subscriptions ch) (requestId r)) as [s |] eqn:Hat.
  - rewrite (handle_routed_call message utf8Data r s) by assumption.
    unfold tryCatch. rewrite call_run.
    assert (Hev : eventOf (_subscriptions ch) (routedCall utf8Data r s))
      by now apply eventOf_routedCall.
    assert (Hkind : match routedCall utf8Data r s with
                    | Send _ | CallOnClose _ _ => False
                    | _ => True
                    end).
    { unfold routedCall. destruct (type r); exact I. }
    destruct (routedOutcome utf8Data r s) as [| e].
    + exists (Normal tt), [routedCall utf8Data r s].
      split; [reflexivity |]. split; constructor; auto.
    + destruct (Halert e (tr ++ [routedCall utf8Data r s]))
        as (result & new & -> & Hnew & Hkinds).
      exists result, (routedCall utf8Data r s :: new).
      rewrite <- app_assoc. split; [reflexivity |].
      split; constructor; auto.
  - rewrite (handle_unknown_requestId parse message utf8Data r)
      by assumption.
    unfold tryCatch.
    destruct (Halert (Error ("Message has unknown requestId: " +:+ utf8Data))
                tr) as (r1 & new1 & -> & Hnew1 & Hkind1).
    destruct r1 as [[] | e1].
    + exists (Normal tt), new1. auto.
    + destruct (Halert e1 (tr ++ new1)) as (r2 & new2 & -> & Hnew2 & Hkind2).
      exists r2, (new1 ++ new2). rewrite app_assoc.
      split; [reflexivity |]. split; now apply Forall_app.
Qed.

(** The events of a message when no [onError] throws. *)
Lemma handle_run (message : Message) (ch : Channel) (tr : list Event) :
  onErrorReturns (_subscriptions ch) ->
  handle message ch tr =
  (Normal tt, ch,
   tr ++
   match data message with
   | None =>
       errorCallsFrom 0 (_subscriptions ch)
         (Error "Message does not contain utf8Data")
   | Some utf8Data =>
       match parse utf8Data with
       | inl e => errorCallsFrom 0 (_subscriptions ch) e
       | inr r =>
           match at_index (_subscriptions ch) (requestId r) with
           | None =>
               errorCallsFrom 0 (_subscriptions ch)
                 (Error ("Message has unknown requestId: " +:+ utf8Data))
           | Some s =>
               routedCall utf8Data r s ::
               match routedOutcome utf8Data r s with
               | Returns => []
               | Throws e => errorCallsFrom 0 (_subscriptions ch) e
               end
           end
       end
   end).
Proof.
  intros Hret.
  destruct (data message) as [utf8Data |] eqn:Hdata.
  2: { rewrite handle_no_data by assumption. now apply alertAll_returns. }
  destruct (parse utf8Data) as [e | r] eqn:Hparse.
  { rewrite (handle_parser_throws parse message utf8Data e) by assumption.
    now apply alertAll_returns. }
  destruct (at_index (_subscriptions ch) (requestId r)) as [s |] eqn:Hat.
  - rewrite (handle_routed_call message utf8Data r s) by assumption.
    now apply tryCatch_call_returns.
  - rewrite (handle_unknown_requestId parse message utf8Data r)
      by assumption.
    unfold tryCatch. now rewrite alertAll_returns.
Qed.

(** X8. No exception leaves [_handleWebSocketMessage] as long as no
    [onError] callback throws: what the parser or an [onSnapshot] or
    [onUpdate] callback throws is caught, and the call returns with the
    channel as it was. *)
Theorem handleWebSocketMessage_catches (message : Message) (ch : Channel)
    (tr : list Event) :
  onErrorReturns (_subscriptions ch) ->
  exists new, handle message ch tr = (Normal tt, ch, tr ++ new).
Proof.
  intros Hret. rewrite handle_run by assumption. eauto.
Qed.

(** X9. A message changes nothing in the channel, sends no frame and calls
    no [onClose]: the events that it adds are calls of [onSnapshot],
    [onUpdate] or [onError] on subscriptions of the list, each with the
    options of its own subscription. *)
Theorem handleWebSocketMessage_only_calls_handlers (message : Message)
    (ch : Channel) (tr : list Event) :
  exists result new,
    handle message ch tr = (result, ch, tr ++ new) /\
    Forall (fun ev =>
              match ev with
              | CallOnSnapshot i opts _ | CallOnUpdate i opts _
              | CallOnError i opts _ =>
                  exists s, _subscriptions ch !! i = Some s /\
                            opts = subscriptionOpts s
              | CallOnClose _ _ | Send _ => False
              end) new.
Proof.
  destruct (handle_events message ch tr) as (result & new & E & Hof & Hkind).
  exists result, new. split; [exact E |].
  rewrite List.Forall_forall in *. intros ev Hin.
  specialize (Hof ev Hin). specialize (Hkind ev Hin).
  destruct ev; cbn in *; auto.
Qed.

(** X11. A parsed message whose [requestId] is negative or not below the
    number of subscriptions is reported to every subscription as an
    unknown [requestId] (no [onError] throwing). *)
Theorem requestId_out_of_range_alerts_all (message : Message)
    (utf8Data : string) (r : ParserResult Payload) (ch : Channel)
    (tr : list Event) :
  data message = Some utf8Data -> parse utf8Data = inr r ->
  requestId r < 0 \/ Z.of_nat (length (_subscriptions ch)) <= requestId r ->
  onErrorReturns (_subscriptions ch) ->
  handle message ch tr =
  (Normal tt, ch,
   tr ++ errorCallsFrom 0 (_subscriptions ch)
           (Error ("Message has unknown requestId: " +:+ utf8Data))).
Proof.
  intros Hdata Hparse Hrange Hret. rewrite handle_run by assumption.
  rewrite Hdata, Hparse.
  assert (Hat : at_index (_subscriptions ch) (requestId r) = None).
  { unfold at_index. destruct (Z.leb_spec 0 (requestId r)); [| reflexivity].
    apply lookup_ge_None_2. lia. }
  now rewrite Hat.
Qed.

Lemma message_is_delivered_once_aux (message : Message) (utf8Data : string)
    (r : ParserResult Payload) (s : Subscription) (ch : Channel)
    (tr : list Event) :
  data message = Some utf8Data -> parse utf8Data = inr r ->
  at_index (_subscriptions ch) (requestId r) = Some s ->
  (type r = Snapshot ->
   onSnapshot (handler s) (subscriptionOpts s) (payload r) = Returns ->
   handle message ch tr =
   (Normal tt, ch,
    tr ++ [CallOnSnapshot (Z.to_nat (requestId r)) (subscriptionOpts s)
                          (payload r)])) /\
  (type r = Update ->
   onUpdate (handler s) (subscriptionOpts s) (payload r) = Returns ->
   handle message ch tr =
   (Normal tt, ch,
    tr ++ [CallOnUpdate (Z.to_nat (requestId r)) (subscriptionOpts s)
                        (payload r)])).
Proof.
  intros Hdata Hparse Hat.
  rewrite (handle_routed_call message utf8Data r s) by assumption.
  unfold tryCatch, routedCall, routedOutcome. rewrite call_run.
  split; intros Htype Hout; rewrite Htype, Hout; reflexivity.
Qed.

(** X5. A parsed message whose [requestId] is within the list and whose
    type is [Snapshot] (or [Update]) makes exactly one call, [onSnapshot]
    (or [onUpdate]) of the subscription at that index with the payload, if
    that callback returns; no other subscription hears of it. *)
Theorem message_is_delivered_once (message : Message) (utf8Data : string)
    (r : ParserResult Payload) (s : Subscription) (ch : Channel)
    (tr : list Event) :
  data message = Some utf8Data -> parse utf8Data = inr r ->
  at_index (_subscriptions ch) (requestId r) = Some s ->
  (type r = Snapshot ->
   onSnapshot (handler s) (subscriptionOpts s) (payload r) = Returns ->
   handle message ch tr =
   (Normal tt, ch,
    tr ++ [CallOnSnapshot (Z.to_nat (requestId r)) (subscriptionOpts s)
                          (payload r)])) /\
  (type r = Update ->
   onUpdate (handler s) (subscriptionOpts s) (payload r) = Returns ->
   handle message ch tr =
   (Normal tt, ch,
    tr ++ [CallOnUpdate (Z.to_nat (requestId r)) (subscriptionOpts s)
                        (payload r)])).
Proof. exact (message_is_delivered_once_aux message utf8Data r s ch tr). Qed.

(** X6. A parsed message of any other type is reported to the subscription
    at its [requestId] alone, as an unknown type parameter, if the
    [onError] of that subscription returns. *)
Theorem unknown_type_alerts_one (message : Message) (utf8Data : string)
    (r : ParserResult Payload) (s : Subscription) (ch : Channel)
    (tr : list Event) :
  data message = Some utf8Data -> parse utf8Data = inr r ->
  at_index (_subscriptions ch) (requestId r) = Some s ->
  type r = Unknown ->
  onError (handler s) (subscriptionOpts s)
    (Error ("Message has unknown type parameter: " +:+ utf8Data)) = Returns ->
  handle message ch tr =
  (Normal tt, ch,
   tr ++ [CallOnError (Z.to_nat (requestId r)) (subscriptionOpts s)
            (Error ("Message has unknown type parameter: " +:+ utf8Data))]).
Proof.
  intros Hdata Hparse Hat Htype Hout.
  rewrite (handle_routed_call message utf8Data r s) by assumption.
  unfold tryCatch, routedCall, routedOutcome. rewrite call_run.
  rewrite Htype, Hout. reflexivity.
Qed.

(** X7. What an [onSnapshot] or [onUpdate] callback throws does not leave
    the method: it is passed to the [onError] of every subscription, the
    one that threw included (no [onError] throwing). *)
Theorem throwing_data_handler_alerts_all (message : Message)
    (utf8Data : string) (r : ParserResult Payload) (s : Subscription)
    (e : JsError) (ch : Channel) (tr : list Event) :
  data message = Some utf8Data -> parse utf8Data = inr r ->
  at_index (_subscriptions ch) (requestId r) = Some s ->
  onErrorReturns (_subscriptions ch) ->
  (type r = Snapshot ->
   onSnapshot (handler s) (subscriptionOpts s) (payload r) = Throws e ->
   handle message ch tr =
   (Normal tt, ch,
    tr ++ CallOnSnapshot (Z.to_nat (requestId r)) (subscriptionOpts s)
                         (payload r)
          :: errorCallsFrom 0 (_subscriptions ch) e)) /\
  (type r = Update ->
   onUpdate (handler s) (subscriptionOpts s) (payload r) = Throws e ->
   handle message ch tr =
   (Normal tt, ch,
    tr ++ CallOnUpdate (Z.to_nat (requestId r)) (subscriptionOpts s)
                       (payload r)
          :: errorCallsFrom 0 (_subscriptions ch) e)).
Proof.
  intros Hdata Hparse Hat Hret.
  rewrite (handle_routed_call message utf8Data r s) by assumption.
  rewrite tryCatch_call_returns by assumption.
  unfold routedCall, routedOutcome.
  split; intros Htype Hout; rewrite Htype, Hout; reflexivity.
Qed.

(** X2. The first subscription waits for the socket: on a channel without
    a client, a call of [subscribe] that passes the assertions sends
    nothing. When the construction of the socket returns, the call creates
    a connecting client at the channel's url, and when the socket opens,
    exactly the subscribe message of that call is sent. When the
    construction throws, the error leaves the call: the subscription is in
    the list already and there is still no client. *)
Theorem first_subscribe_is_sent_on_open (opts : SubscriptionOpts)
    (h : Handler) (ch : Channel) (tr : list Event) :
  _clientIfExists ch = None ->
  isOrderbookChannelSubscriptionOpts opts = Returns ->
  isOrderbookChannelHandler h = Returns ->
  let message := messageFor (_subscriptions ch) opts in
  match newWebSocket (_apiEndpointUrl ch) with
  | Returns =>
      exists ch1 ch2,
        subscribe opts h ch tr = (Normal tt, ch1, tr) /\
        _clientIfExists ch1
          = Some (mkClient (_apiEndpointUrl ch) CONNECTING message) /\
        onopen ch1 tr = (Normal tt, ch2, tr ++ [Send message]) /\
        _clientIfExists ch2
          = Some (mkClient (_apiEndpointUrl ch) OPEN message) /\
        _subscriptions ch2 = _subscriptions ch ++ [mkSubscription opts h]
  | Throws e =>
      exists ch1,
        subscribe opts h ch tr = (Thrown e, ch1, tr) /\
        _clientIfExists ch1 = None /\
        _subscriptions ch1 = _subscriptions ch ++ [mkSubscription opts h] /\
        _apiEndpointUrl ch1 = _apiEndpointUrl ch
  end.
Proof.
  intros Hclient Hopts Hhandler message.
  rewrite (subscribe_run _ _ _ opts h ch tr Hopts Hhandler), Hclient.
  destruct (newWebSocket (_apiEndpointUrl ch)) as [| e].
  - eexists _, _. split; [reflexivity |].
    split; [reflexivity |]. rewrite onopen_run. cbn.
    repeat split.
  - eexists. repeat split.
Qed.

(** X3. A subscription made while a client exists that is not open is
    announced neither by the call nor by the opening of the socket: the
    call appends the subscription and returns, but sends nothing and
    leaves the client as it is, so that the opening of the socket sends
    the message kept at the creation of the client and no other; on a
    coherent channel that message is not the one of the new
    subscription. *)
Theorem subscribe_before_open_is_never_sent (opts : SubscriptionOpts)
    (h : Handler) (ch : Channel) (tr : list Event)
    (client : Client SubscriptionOpts) :
  _clientIfExists ch = Some client ->
  readyState client <> OPEN ->
  isOrderbookChannelSubscriptionOpts opts = Returns ->
  isOrderbookChannelHandler h = Returns ->
  exists ch1 ch2,
    subscribe opts h ch tr = (Normal tt, ch1, tr) /\
    _subscriptions ch1 = _subscriptions ch ++ [mkSubscription opts h] /\
    _clientIfExists ch1 = Some client /\
    onopen ch1 tr = (Normal tt, ch2, tr ++ [Send (onopenMessage client)]) /\
    (coherent ch tr ->
     msg_requestId (onopenMessage client)
     <> msg_requestId (messageFor (_subscriptions ch) opts)).
Proof.
  intros Hclient Hstate Hopts Hhandler.
  eexists _, _. rewrite (subscribe_run _ _ _ opts h ch tr Hopts Hhandler).
  rewrite Hclient.
  assert (Hnothing : match readyState client with
                     | OPEN => [Send (messageFor (_subscriptions ch) opts)]
                     | _ => []
                     end = ([] : list Event)).
  { destruct (readyState client); congruence. }
  rewrite Hnothing, app_nil_r. split; [reflexivity |].
  split; [reflexivity |]. split; [reflexivity |].
  rewrite onopen_run. cbn. split; [reflexivity |].
  intros [_ Hcoh]. rewrite Hclient in Hcoh.
  destruct Hcoh as (_ & Hzero & _ & _ & s & Hat & _).
  rewrite Hzero in *. apply at_index_Some in Hat as [_ Hl].
  apply lookup_lt_Some in Hl. lia.
Qed.

(** X4. The [requestId] given out by [subscribe] is the one that brings
    messages back: after a call that passes the assertions, a snapshot
    parsed with the [requestId] of that call's subscribe message calls the
    [onSnapshot] of the handler just subscribed, with the options just
    subscribed, and nothing else. The call of [subscribe] returns, unless
    it is the construction of the socket that throws; the subscription is
    registered in both cases. *)
Theorem subscribed_handler_receives_its_snapshot (opts : SubscriptionOpts)
    (h : Handler) (ch : Channel) (tr : list Event) (utf8Data : string)
    (r : ParserResult Payload) :
  isOrderbookChannelSubscriptionOpts opts = Returns ->
  isOrderbookChannelHandler h = Returns ->
  parse utf8Data = inr r ->
  type r = Snapshot ->
  requestId r = msg_requestId (messageFor (_subscriptions ch) opts) ->
  onSnapshot h opts (payload r) = Returns ->
  exists result ch' tr',
    subscribe opts h ch tr = (result, ch', tr') /\
    result = match _clientIfExists ch, newWebSocket (_apiEndpointUrl ch) with
             | None, Throws e => Thrown e
             | _, _ => Normal tt
             end /\
    handle (mkMessage (Some utf8Data)) ch' tr' =
    (Normal tt, ch',
     tr' ++ [CallOnSnapshot (length (_subscriptions ch)) opts (payload r)]).
Proof.
  intros Hopts Hhandler Hparse Htype Hid Hout.
  assert (Hdeliver : forall (client : option (Client SubscriptionOpts))
                            (tr' : list Event),
            let ch' := mkChannel (_apiEndpointUrl ch) client
                         (_subscriptions ch ++ [mkSubscription opts h]) in
            handle (mkMessage (Some utf8Data)) ch' tr' =
            (Normal tt, ch',
             tr' ++ [CallOnSnapshot (length (_subscriptions ch)) opts
                                    (payload r)])).
  { intros client tr' ch'.
    assert (Hat : at_index (_subscriptions ch') (requestId r)
                  = Some (mkSubscription opts h)).
    { rewrite Hid. apply at_index_new. }
    destruct (message_is_delivered_once_aux (mkMessage (Some utf8Data))
                utf8Data r (mkSubscription opts h) ch' tr'
                eq_refl Hparse Hat) as [Hsnap _].
    rewrite (Hsnap Htype Hout). rewrite Hid. cbn [msg_requestId messageFor].
    now rewrite Nat2Z.id. }
  rewrite (subscribe_run _ _ _ opts h ch tr Hopts Hhandler).
  destruct (_clientIfExists ch) as [client |];
    [| destruct (newWebSocket (_apiEndpointUrl ch)) as [| e]];
    (eexists _, _, _; split; [reflexivity |]; split; [reflexivity |]);
    apply Hdeliver.
Qed.

(** What one action does to the channel and to the trace: the list of
    subscriptions grows by one when the action is an accepted [subscribe]
    and stays otherwise, the trace grows, the url stays, and a client that
    exists stays, with its url and the message kept for [onopen]. *)
Lemma perform_extends (a : Action) (ch : Channel) (tr : list Event) :
  exists result ch' more new,
    perform a ch tr = (result, ch', tr ++ new) /\
    _subscriptions ch' = _subscriptions ch ++ more /\
    length more = (if accepted a then 1 else 0)%nat /\
    _apiEndpointUrl ch' = _apiEndpointUrl ch /\
    (forall client, _clientIfExists ch = Some client ->
       exists client', _clientIfExists ch' = Some client' /\
                       url client' = url client /\
                       onopenMessage client' = onopenMessage client).
Proof.
  assert (Hsame : forall result new,
            exists (result' : Completion unit) (ch' : Channel)
                   (more : list Subscription) (new' : list Event),
              (result, ch, tr ++ new) = (result', ch', tr ++ new') /\
              _subscriptions ch' = _subscriptions ch ++ more /\
              length more = 0%nat /\
              _apiEndpointUrl ch' = _apiEndpointUrl ch /\
              (forall client, _clientIfExists ch = Some client ->
                 exists client', _clientIfExists ch' = Some client' /\
                                 url client' = url client /\
                                 onopenMessage client' = onopenMessage client)).
  { intros result new. exists result, ch, [], new.
    rewrite app_nil_r. repeat split. eauto. }
  assert (Hsame0 := fun result => Hsame result []).
  rewrite app_nil_r in Hsame0.
  destruct a as [opts h | | | error | | message];
    cbn [OrderbookChannel.perform OrderbookChannel.accepted].
  - destruct (isOrderbookChannelSubscriptionOpts opts) as [| e] eqn:Hopts.
    2: { rewrite (subscribe_throws _ _ _ opts h ch tr e) by (left; exact Hopts).
         apply Hsame0. }
    destruct (isOrderbookChannelHandler h) as [| e] eqn:Hhandler.
    2: { rewrite (subscribe_throws _ _ _ opts h ch tr e) by (right; auto).
         apply Hsame0. }
    rewrite (subscribe_run _ _ _ opts h ch tr Hopts Hhandler).
    destruct (_clientIfExists ch) as [client |] eqn:Hclient;
      [| destruct (newWebSocket (_apiEndpointUrl ch)) as [| e]].
    + eexists _, _, [mkSubscription opts h], _.
      split; [reflexivity |]. cbn. repeat split.
      intros c [= <-]. eauto.
    + eexists _, _, [mkSubscription opts h], [].
      rewrite app_nil_r. split; [reflexivity |]. cbn. repeat split.
      intros c [=].
    + eexists _, _, [mkSubscription opts h], [].
      rewrite app_nil_r. split; [reflexivity |]. cbn. repeat split.
      intros c [=].
  - rewrite close_run.
    destruct (_clientIfExists ch) as [client |] eqn:Hclient.
    + eexists _, _, [], []. rewrite !app_nil_r. split; [reflexivity |].
      cbn. repeat split. intros c [= <-]. eauto.
    + apply Hsame0.
  - rewrite onopen_run.
    destruct (_clientIfExists ch) as [client |] eqn:Hclient.
    + eexists _, _, [], _. split; [reflexivity |].
      rewrite app_nil_r. cbn. repeat split. intros c [= <-]. eauto.
    + apply Hsame0.
  - unfold onerror.
    destruct (alertAll_events error ch tr) as (result & new & -> & _).
    apply Hsame.
  - destruct (onclose_events ch tr) as (result & new & -> & _).
    apply Hsame.
  - unfold onmessage.
    destruct (handle_events message ch tr) as (result & new & -> & _).
    apply Hsame.
Qed.

(** One action keeps the channel and its trace coherent, at a url for
    which the construction of the socket does not throw. *)
Lemma perform_coherent (a : Action) (ch : Channel) (tr : list Event) :
  newWebSocket (_apiEndpointUrl ch) = Returns ->
  coherent ch tr ->
  coherent (snd (fst (perform a ch tr))) (snd (perform a ch tr)).
Proof.
  intros Hctor [Htr Hclient].
  assert (Hkeep : forall result new,
            Forall (eventOf (_subscriptions ch)) new ->
            coherent (snd (fst (result : Completion unit, ch, tr ++ new)))
                     (snd (result, ch, tr ++ new))).
  { intros result new Hnew. cbn. split; [now apply Forall_app | exact Hclient]. }
  destruct a as [opts h | | | error | | message];
    cbn [OrderbookChannel.perform].
  - destruct (isOrderbookChannelSubscriptionOpts opts) as [| e] eqn:Hopts.
    2: { rewrite (subscribe_throws _ _ _ opts h ch tr e) by (left; exact Hopts).
         split; assumption. }
    destruct (isOrderbookChannelHandler h) as [| e] eqn:Hhandler.
    2: { rewrite (subscribe_throws _ _ _ opts h ch tr e) by (right; auto).
         split; assumption. }
    rewrite (subscribe_run _ _ _ opts h ch tr Hopts Hhandler), Hctor.
    assert (Hold : Forall (eventOf (_subscriptions ch
                                    ++ [mkSubscription opts h])) tr).
    { eapply Forall_impl; [exact Htr |]. intros ev. apply eventOf_app. }
    destruct (_clientIfExists ch) as [client |]; cbn [fst snd];
      (split; cbn [_subscriptions _clientIfExists _apiEndpointUrl]).
    + apply Forall_app. split; [exact Hold |].
      destruct (readyState client); try constructor;
        try apply frameOf_messageFor; constructor.
    + destruct Hclient as (Hurl & Hzero & Hframe).
      split; [exact Hurl |]. split; [exact Hzero |]. now apply frameOf_app.
    + exact Hold.
    + cbn. rewrite Hclient. repeat split.
      exists (mkSubscription opts h). split; reflexivity.
  - rewrite close_run. cbn [fst snd].
    destruct (_clientIfExists ch) as [client |] eqn:Hc.
    + split; cbn; [exact Htr | exact Hclient].
    + split; [exact Htr | now rewrite Hc].
  - rewrite onopen_run.
    destruct (_clientIfExists ch) as [client |] eqn:Hc.
    + destruct Hclient as (Hurl & Hzero & Hframe). cbn [fst snd].
      split; cbn.
      * apply Forall_app. split; [exact Htr |].
        constructor; [exact Hframe | constructor].
      * split; [exact Hurl |]. split; [exact Hzero | exact Hframe].
    + cbn. split; [exact Htr | now rewrite Hc].
  - unfold onerror.
    destruct (alertAll_events error ch tr) as (result & new & -> & Hnew).
    now apply Hkeep.
  - destruct (onclose_events ch tr) as (result & new & -> & Hnew).
    now apply Hkeep.
  - unfold onmessage.
    destruct (handle_events message ch tr) as (result & new & -> & Hnew & _).
    now apply Hkeep.
Qed.

Lemma performAll_cons (a : Action) (rest : list Action) (ch : Channel)
    (tr : list Event) :
  performAll (a :: rest) ch tr =
  performAll rest (snd (fst (perform a ch tr))) (snd (perform a ch tr)).
Proof.
  cbn [OrderbookChannel.performAll].
  destruct (perform a ch tr) as [[result ch'] tr']. reflexivity.
Qed.

Lemma performAll_coherent (actions : list Action) (ch : Channel)
    (tr : list Event) :
  newWebSocket (_apiEndpointUrl ch) = Returns ->
  coherent ch tr ->
  coherent (fst (performAll actions ch tr)) (snd (performAll actions ch tr)).
Proof.
  revert ch tr. induction actions as [| a rest IH]; intros ch tr Hctor Hcoh.
  - exact Hcoh.
  - rewrite performAll_cons. apply IH.
    + destruct (perform_extends a ch tr)
        as (result & ch1 & more & new & E & _ & _ & Hurl & _).
      rewrite E. cbn [fst snd]. now rewrite Hurl.
    + now apply perform_coherent.
Qed.

Lemma performAll_extends (actions : list Action) (ch : Channel)
    (tr : list Event) :
  exists more new,
    _subscriptions (fst (performAll actions ch tr))
      = _subscriptions ch ++ more /\
    snd (performAll actions ch tr) = tr ++ new /\
    length more = length (List.filter accepted actions) /\
    _apiEndpointUrl (fst (performAll actions ch tr)) = _apiEndpointUrl ch /\
    (forall client, _clientIfExists ch = Some client ->
       exists client',
         _clientIfExists (fst (performAll actions ch tr)) = Some client' /\
         url client' = url client /\
         onopenMessage client' = onopenMessage client).
Proof.
  revert ch tr. induction actions as [| a rest IH]; intros ch tr.
  - exists [], []. rewrite !app_nil_r. repeat split. eauto.
  - rewrite performAll_cons.
    destruct (perform_extends a ch tr)
      as (result & ch1 & more1 & new1 & E & Hsubs1 & Hlen1 & Hurl1 & Hclient1).
    rewrite E. cbn [fst snd].
    destruct (IH ch1 (tr ++ new1))
      as (more2 & new2 & Hsubs2 & Htr2 & Hlen2 & Hurl2 & Hclient2).
    exists (more1 ++ more2), (new1 ++ new2).
    rewrite Hsubs2, Hsubs1, Htr2, Hurl2, Hurl1, !app_assoc.
    repeat split.
    + rewrite length_app, Hlen1, Hlen2. cbn [List.filter].
      destruct (accepted a); reflexivity.
    + intros client Hc. destruct (Hclient1 client Hc) as (c1 & Hc1 & Hu1 & Hm1).
      destruct (Hclient2 c1 Hc1) as (c2 & Hc2 & Hu2 & Hm2).
      exists c2. repeat split; congruence.
Qed.

(** X14. At a url for which the construction of the socket does not
    throw, whatever happens to a channel after its construction (calls of
    [subscribe] and [close], and the socket's open, error, close and
    message callbacks, in any number and order), the channel and the trace
    stay coherent: every callback was called with the options of its own
    subscription, every frame sent is a subscribe message that carries the
    index and the options of a subscription of the list, the message kept
    for [onopen] is the one of the first subscription, the client is at
    the url given to the constructor, and there is a client exactly when
    there is a subscription. *)
Theorem channel_stays_coherent (endpoint : string) (ch : Channel)
    (actions : list Action) :
  constructor isUri endpoint = Normal ch ->
  newWebSocket endpoint = Returns ->
  let ch' := fst (performAll actions ch []) in
  let tr' := snd (performAll actions ch []) in
  Forall (eventOf (_subscriptions ch')) tr' /\
  _apiEndpointUrl ch' = endpoint /\
  (_clientIfExists ch' = None <-> _subscriptions ch' = []) /\
  (forall client, _clientIfExists ch' = Some client ->
     url client = endpoint /\
     msg_requestId (onopenMessage client) = 0 /\
     frameOf (_subscriptions ch') (onopenMessage client)).
Proof.
  unfold constructor. destruct (isUri endpoint); [| discriminate].
  intros [= <-] Hctor. cbn zeta.
  assert (Hstart : coherent (mkChannel endpoint None []) ([] : list Event)).
  { split; [constructor | reflexivity]. }
  destruct (performAll_coherent actions (mkChannel endpoint None []) []
              Hctor Hstart) as [Htr Hclient].
  destruct (performAll_extends actions (mkChannel endpoint None []) [])
    as (_ & _ & _ & _ & _ & Hurl & _).
  cbn [_apiEndpointUrl] in Hurl.
  split; [exact Htr |]. split; [exact Hurl |].
  destruct (_clientIfExists (fst (performAll actions _ _))) as [client |].
  - destruct Hclient as (Hu & Hzero & Hframe). split.
    + split; [discriminate |]. intros Hnil.
      destruct Hframe as (_ & _ & s & Hat & _). rewrite Hnil in Hat.
      apply at_index_Some in Hat as [_ Hl]. discriminate Hl.
    + intros c [= <-]. rewrite Hu, Hurl. auto.
  - split; [tauto |]. discriminate.
Qed.

(** X15. No subscription is ever removed or moved: after any actions, from
    any channel, the list is the old list with subscriptions appended, so
    that a [requestId] that selected a subscription selects it for ever. *)
Theorem subscriptions_are_never_removed (actions : list Action)
    (ch : Channel) (tr : list Event) :
  let ch' := fst (performAll actions ch tr) in
  (exists more, _subscriptions ch' = _subscriptions ch ++ more) /\
  (forall requestId s,
     at_index (_subscriptions ch) requestId = Some s ->
     at_index (_subscriptions ch') requestId = Some s).
Proof.
  cbn zeta.
  destruct (performAll_extends actions ch tr) as (more & _ & Hsubs & _).
  split; [eauto |]. intros i s. rewrite Hsubs. apply at_index_app.
Qed.

(** X16. The list counts the calls of [subscribe] that passed both argument
    assertions: after any actions it is longer by the number of those
    calls, whatever a rejected call, [close] or the socket did in
    between. *)
Theorem subscriptions_count_accepted_calls (actions : list Action)
    (ch : Channel) (tr : list Event) :
  length (_subscriptions (fst (performAll actions ch tr))) =
  (length (_subscriptions ch) + length (List.filter accepted actions))%nat.
Proof.
  destruct (performAll_extends actions ch tr)
    as (more & _ & Hsubs & _ & Hlen & _).
  rewrite Hsubs, length_app, Hlen. reflexivity.
Qed.

(** X17. The channel connects once: a client that exists is never dropped
    or replaced by another, whatever is called afterwards ([close] and the
    closing of the socket included); it keeps its url and the message kept
    for [onopen], and the url of the channel never changes. *)
Theorem client_is_never_replaced (actions : list Action) (ch : Channel)
    (tr : list Event) (client : Client SubscriptionOpts) :
  _clientIfExists ch = Some client ->
  let ch' := fst (performAll actions ch tr) in
  _apiEndpointUrl ch' = _apiEndpointUrl ch /\
  exists client',
    _clientIfExists ch' = Some client' /\
    url client' = url client /\
    onopenMessage client' = onopenMessage client.
Proof.
  intros Hclient. cbn zeta.
  destruct (performAll_extends actions ch tr)
    as (_ & _ & _ & _ & _ & Hurl & Hkeep).
  split; [exact Hurl | now apply Hkeep].
Qed.

(** The trace only grows: no action takes back an event. *)
Lemma trace_only_grows (actions : list Action) (ch : Channel)
    (tr : list Event) :
  exists new, snd (performAll actions ch tr) = tr ++ new.
Proof.
  destruct (performAll_extends actions ch tr) as (_ & new & _ & Htr & _).
  eauto.
Qed.

Lemma forEach_close_returns (subs : list Subscription) (i : nat)
    (ch : Channel) (tr : list Event) :
  onCloseReturns subs ->
  forEachFrom i subs
    (fun i s => call (CallOnClose i (subscriptionOpts s))
                     (onClose (handler s) (subscriptionOpts s))) ch tr =
  (Normal tt, ch, tr ++ closeCallsFrom i subs).
Proof.
  revert i tr. induction subs as [| s subs IH]; intros i tr Hret.
  - cbn. now rewrite app_nil_r.
  - cbn [forEachFrom closeCallsFrom]. unfold bind at 1.
    rewrite call_run. rewrite (Hret s) by (left; reflexivity).
    rewrite IH.
    + now rewrite <- app_assoc.
    + intros s' Hin. apply Hret. now right.
Qed.

(** X13. When the socket closes, the [onClose] of every subscription is
    called, once and in the order of the list, each with the options of
    its subscription (no [onClose] throwing); the channel keeps its
    subscriptions and its client. *)
Theorem onclose_notifies_every_subscription (ch : Channel)
    (tr : list Event) :
  onCloseReturns (_subscriptions ch) ->
  onclose ch tr =
  (Normal tt, ch, tr ++ closeCallsFrom 0 (_subscriptions ch)).
Proof.
  intros Hret. unfold onclose, bind. cbn [this]. unfold forEach.
  now apply forEach_close_returns.
Qed.

(** X12. An error of the socket is passed to the [onError] of every
    subscription, once and in the order of the list (no [onError]
    throwing); the channel is left as it was. *)
Theorem onerror_alerts_every_subscription (error : JsError) (ch : Channel)
    (tr : list Event) :
  onErrorReturns (_subscriptions ch) ->
  onerror error ch tr =
  (Normal tt, ch, tr ++ errorCallsFrom 0 (_subscriptions ch) error).
Proof.
  intros Hret. unfold onerror. now apply alertAll_returns.
Qed.

(** X1. A call of [subscribe] that fails an argument assertion throws what
    the assertion threw and registers nothing: the list, the client and
    the trace are as before, the options assertion being made first. *)
Theorem subscribe_rejects_before_registering (opts : SubscriptionOpts)
    (h : Handler) (ch : Channel) (tr : list Event) (e : JsError) :
  isOrderbookChannelSubscriptionOpts opts = Throws e \/
  (isOrderbookChannelSubscriptionOpts opts = Returns /\
   isOrderbookChannelHandler h = Throws e) ->
  subscribe opts h ch tr = (Thrown e, ch, tr).
Proof. apply subscribe_throws. Qed.

(** The frames among the events [new] are for the first subscription or
    for one at index [n] or later. *)
Lemma forEachFrom_calls_no_frame (f : nat -> Subscription -> Method unit)
    (ev : nat -> Subscription -> Event)
    (out : nat -> Subscription -> Outcome) :
  (forall i s, f i s = call (ev i s) (out i s)) ->
  (forall i s, match ev i s with Send _ => False | _ => True end) ->
  forall (l : list Subscription) (i : nat) (ch : Channel) (tr : list Event),
  exists result new,
    forEachFrom i l f ch tr = (result, ch, tr ++ new) /\
    Forall (fun e => match e with Send _ => False | _ => True end) new.
Proof.
  intros Hf Hev l i ch tr.
  destruct (forEachFrom_calls f ev out Hf l i ch tr)
    as (result & new & E & Hnew).
  exists result, new. split; [exact E |].
  eapply Forall_impl; [exact Hnew |].
  intros e (j & s & _ & ->). apply Hev.
Qed.

Lemma perform_frames (n : nat) (a : Action) (ch : Channel)
    (tr : list Event) :
  pendingFrom n ch ->
  exists new,
    snd (perform a ch tr) = tr ++ new /\
    Forall (framesFrom n) new /\
    pendingFrom n (snd (fst (perform a ch tr))).
Proof.
  intros [Hlen Hkept].
  assert (Hquiet : forall (result : Completion unit) (new : list Event),
            Forall (fun e : Event =>
                      match e with Send _ => False | _ => True end) new ->
            exists new',
              snd (result, ch, tr ++ new) = tr ++ new' /\
              Forall (framesFrom n) new' /\
              pendingFrom n (snd (fst (result, ch, tr ++ new)))).
  { intros result new Hnew. exists new. split; [reflexivity |].
    split; [| split; assumption].
    eapply Forall_impl; [exact Hnew |]. intros [] H; cbn; auto; destruct H. }
  assert (Hnothing : forall result : Completion unit,
            exists new',
              snd (result, ch, tr) = tr ++ new' /\
              Forall (framesFrom n) new' /\
              pendingFrom n (snd (fst (result, ch, tr)))).
  { intros result. exists []. rewrite app_nil_r.
    split; [reflexivity |]. split; [constructor | split; assumption]. }
  destruct a as [opts h | | | error | | message];
    cbn [OrderbookChannel.perform].
  - destruct (isOrderbookChannelSubscriptionOpts opts) as [| e] eqn:Hopts.
    2: { rewrite (subscribe_throws _ _ _ opts h ch tr e)
           by (left; exact Hopts).
         apply Hnothing. }
    destruct (isOrderbookChannelHandler h) as [| e] eqn:Hhandler.
    2: { rewrite (subscribe_throws _ _ _ opts h ch tr e) by (right; auto).
         apply Hnothing. }
    rewrite (subscribe_run _ _ _ opts h ch tr Hopts Hhandler).
    assert (Hlen' : (n <= length (_subscriptions ch
                                  ++ [mkSubscription opts h]))%nat).
    { rewrite length_app. lia. }
    destruct (_clientIfExists ch) as [client |] eqn:Hclient;
      [| destruct (newWebSocket (_apiEndpointUrl ch)) as [| e]];
      cbn [fst snd].
    + eexists. split; [reflexivity |]. split.
      * destruct (readyState client); try (now constructor).
        constructor; [| constructor]. cbn. right. lia.
      * split; [exact Hlen' |]. cbn [_clientIfExists].
        intros c [= <-]. now apply Hkept.
    + exists []. rewrite app_nil_r. split; [reflexivity |].
      split; [constructor |]. split; [exact Hlen' |].
      cbn [_clientIfExists]. intros c [= <-]. cbn. right. lia.
    + exists []. rewrite app_nil_r. split; [reflexivity |].
      split; [constructor |]. split; [exact Hlen' |].
      cbn [_clientIfExists]. intros c [=].
  - rewrite close_run.
    destruct (_clientIfExists ch) as [client |] eqn:Hclient;
      [| apply Hnothing].
    exists []. rewrite app_nil_r. split; [reflexivity |].
    split; [constructor |]. cbn [fst snd]. split; [exact Hlen |].
    cbn [_clientIfExists]. intros c [= <-]. cbn. now apply Hkept.
  - rewrite onopen_run.
    destruct (_clientIfExists ch) as [client |] eqn:Hclient;
      [| apply Hnothing].
    cbn [fst snd]. eexists. split; [reflexivity |]. split.
    + constructor; [| constructor]. cbn. now apply Hkept.
    + split; [exact Hlen |]. cbn [_clientIfExists].
      intros c [= <-]. cbn. now apply Hkept.
  - unfold onerror. rewrite alertAll_run.
    destruct (forEachFrom_calls_no_frame (alertHandler error)
                (fun i s => CallOnError i (subscriptionOpts s) error)
                (fun i s => onError (handler s) (subscriptionOpts s) error)
                (fun i s => eq_refl) (fun i s => I)
                (_subscriptions ch) 0 ch tr) as (result & new & -> & Hnew).
    now apply Hquiet.
  - unfold onclose, bind. cbn [this]. unfold forEach.
    destruct (forEachFrom_calls_no_frame
                (fun i s => call (CallOnClose i (subscriptionOpts s))
                                 (onClose (handler s) (subscriptionOpts s)))
                (fun i s => CallOnClose i (subscriptionOpts s))
                (fun i s => onClose (handler s) (subscriptionOpts s))
                (fun i s => eq_refl) (fun i s => I)
                (_subscriptions ch) 0 ch tr) as (result & new & -> & Hnew).
    now apply Hquiet.
  - unfold onmessage.
    destruct (handle_events message ch tr) as (result & new & -> & _ & Hkind).
    apply Hquiet. eapply Forall_impl; [exact Hkind |].
    intros [] H; cbn in *; auto.
Qed.

Lemma performAll_frames (n : nat) (actions : list Action) (ch : Channel)
    (tr : list Event) :
  pendingFrom n ch ->
  exists new,
    snd (performAll actions ch tr) = tr ++ new /\
    Forall (framesFrom n) new.
Proof.
  revert ch tr. induction actions as [| a rest IH]; intros ch tr Hpending.
  - exists []. rewrite app_nil_r. split; [reflexivity | constructor].
  - rewrite performAll_cons.
    destruct (perform_frames n a ch tr Hpending)
      as (new1 & Htr1 & Hnew1 & Hpending1).
    rewrite Htr1.
    destruct (IH _ (tr ++ new1) Hpending1) as (new2 & Htr2 & Hnew2).
    exists (new1 ++ new2). rewrite Htr2, app_assoc. split; [reflexivity |].
    apply Forall_app. split; assumption.
Qed.

(** A coherent channel can only send the message of the first
    subscription, or those of subscriptions to come. *)
Lemma coherent_pendingFrom (ch : Channel) (tr : list Event) :
  coherent ch tr -> pendingFrom (length (_subscriptions ch)) ch.
Proof.
  intros [_ Hclient]. split; [lia |]. intros client Hc.
  rewrite Hc in Hclient. left. apply Hclient.
Qed.

(** X20. A subscribe message is sent during the call of [subscribe] that
    made it or, for the first subscription, at the opening of the socket,
    and at no other time: on a coherent channel, every frame sent by later
    actions, whatever they are, has the [requestId] 0 or the [requestId] of
    a subscription made by those actions. A subscription other than the
    first whose call sent nothing is never announced. *)
Theorem no_late_announcement (actions : list Action) (ch : Channel)
    (tr : list Event) :
  coherent ch tr ->
  exists new,
    snd (performAll actions ch tr) = tr ++ new /\
    forall f, In (Send f) new ->
      msg_requestId f = 0 \/
      Z.of_nat (length (_subscriptions ch)) <= msg_requestId f.
Proof.
  intros Hcoh.
  destruct (performAll_frames _ actions ch tr
              (coherent_pendingFrom ch tr Hcoh)) as (new & Htr & Hnew).
  exists new. split; [exact Htr |]. intros f Hin.
  rewrite List.Forall_forall in Hnew. exact (Hnew (Send f) Hin).
Qed.

End Channel.

(** *** The properties at the small instance *)

Lemma quietSubscriptions_onClose :
  onCloseReturns (_subscriptions quietSubscriptions).
Proof. intros s [<- | [<- | []]]; reflexivity. Defined.

Lemma throwingSubscription_onError :
  onErrorReturns (_subscriptions throwingSubscription).
Proof. intros s e [<- | [<- | []]]; reflexivity. Defined.

Lemma handleWebSocketMessage_catches_witness :
  exists new,
    _handleWebSocketMessage failingParser (mkMessage (Some "{"))
                            throwingSubscription []
    = (Normal tt, throwingSubscription, [] ++ new).
Proof.
  apply (handleWebSocketMessage_catches failingParser (mkMessage (Some "{"))
           throwingSubscription [] throwingSubscription_onError).
Defined.

Lemma requestId_out_of_range_alerts_all_witness :
  _handleWebSocketMessage negativeIdParser (mkMessage (Some "m"))
                          quietSubscriptions []
  = (Normal tt, quietSubscriptions,
     [CallOnError 0 "ZRX-WETH" (Error "Message has unknown requestId: m");
      CallOnError 1 "DAI-WETH" (Error "Message has unknown requestId: m")]).
Proof.
  apply (requestId_out_of_range_alerts_all negativeIdParser
           (mkMessage (Some "m")) "m" (mkParserResult Snapshot (-1) 7)
           quietSubscriptions [] eq_refl eq_refl).
  - left. reflexivity.
  - exact quietSubscriptions_onError.
Defined.

Lemma message_is_delivered_once_witness :
  _handleWebSocketMessage snapshotParser (mkMessage (Some "m"))
                          quietSubscriptions []
  = (Normal tt, quietSubscriptions, [CallOnSnapshot 1 "DAI-WETH" 7]).
Proof.
  destruct (message_is_delivered_once snapshotParser (mkMessage (Some "m"))
              "m" (mkParserResult Snapshot 1 7)
              (mkSubscription "DAI-WETH" quietHandler) quietSubscriptions []
              eq_refl eq_refl eq_refl) as [Hsnapshot _].
  exact (Hsnapshot eq_refl eq_refl).
Defined.

Lemma unknown_type_alerts_one_witness :
  _handleWebSocketMessage unknownTypeParser (mkMessage (Some "m"))
                          quietSubscriptions []
  = (Normal tt, quietSubscriptions,
     [CallOnError 1 "DAI-WETH"
        (Error "Message has unknown type parameter: m")]).
Proof.
  apply (unknown_type_alerts_one unknownTypeParser (mkMessage (Some "m"))
           "m" (mkParserResult Unknown 1 0)
           (mkSubscription "DAI-WETH" quietHandler) quietSubscriptions []
           eq_refl eq_refl eq_refl eq_refl eq_refl).
Defined.

Lemma throwing_data_handler_alerts_all_witness :
  _handleWebSocketMessage snapshotParser (mkMessage (Some "m"))
                          throwingSubscription []
  = (Normal tt, throwingSubscription,
     [CallOnSnapshot 1 "DAI-WETH" 7;
      CallOnError 0 "ZRX-WETH" (Error "snapshot refused");
      CallOnError 1 "DAI-WETH" (Error "snapshot refused")]).
Proof.
  destruct (throwing_data_handler_alerts_all snapshotParser
              (mkMessage (Some "m")) "m" (mkParserResult Snapshot 1 7)
              (mkSubscription "DAI-WETH" throwingSnapshotHandler)
              (Error "snapshot refused") throwingSubscription []
              eq_refl eq_refl eq_refl throwingSubscription_onError)
    as [Hsnapshot _].
  exact (Hsnapshot eq_refl eq_refl).
Defined.

Lemma first_subscribe_is_sent_on_open_witness :
  (exists ch1 ch2,
     subscribe rejectEmptyOpts acceptHandler acceptWsUrl "ZRX-WETH"
               quietHandler newChannel [] = (Normal tt, ch1, []) /\
     onopen ch1 []
     = (Normal tt, ch2,
        [Send (mkSubscribeMessage "subscribe" "orderbook" 0 "ZRX-WETH")])) /\
  (exists ch1,
     subscribe rejectEmptyOpts acceptHandler acceptWsUrl "ZRX-WETH"
               quietHandler httpChannel []
     = (Thrown (Error "SyntaxError: The URL's scheme must be ws or wss"),
        ch1, []) /\
     _clientIfExists ch1 = None /\
     length (_subscriptions ch1) = 1%nat).
Proof.
  split.
  - destruct (first_subscribe_is_sent_on_open rejectEmptyOpts acceptHandler
                acceptWsUrl "ZRX-WETH" quietHandler newChannel []
                eq_refl eq_refl eq_refl)
      as (ch1 & ch2 & Hsubscribe & _ & Hopen & _).
    exists ch1, ch2. split; [exact Hsubscribe | exact Hopen].
  - destruct (first_subscribe_is_sent_on_open rejectEmptyOpts acceptHandler
                acceptWsUrl "ZRX-WETH" quietHandler httpChannel []
                eq_refl eq_refl eq_refl)
      as (ch1 & Hsubscribe & Hclient & Hsubs & _).
    exists ch1. split; [exact Hsubscribe |].
    split; [exact Hclient | now rewrite Hsubs].
Defined.

Lemma subscribe_before_open_is_never_sent_witness :
  exists ch1 ch2,
    subscribe rejectEmptyOpts acceptHandler acceptWsUrl "DAI-WETH" quietHandler
              connectingChannel [] = (Normal tt, ch1, []) /\
    length (_subscriptions ch1) = 2%nat /\
    onopen ch1 []
    = (Normal tt, ch2,
       [Send (mkSubscribeMessage "subscribe" "orderbook" 0 "ZRX-WETH")]).
Proof.
  destruct (subscribe_before_open_is_never_sent rejectEmptyOpts
      acceptHandler acceptWsUrl
              "DAI-WETH" quietHandler connectingChannel []
              (mkClient "ws://relayer.example/v0" CONNECTING
                 (mkSubscribeMessage "subscribe" "orderbook" 0 "ZRX-WETH"))
              eq_refl ltac:(discriminate) eq_refl eq_refl)
    as (ch1 & ch2 & Hsubscribe & Hsubs & _ & Hopen & _).
  exists ch1, ch2. split; [exact Hsubscribe |].
  split; [now rewrite Hsubs | exact Hopen].
Defined.

Lemma subscribed_handler_receives_its_snapshot_witness :
  exists ch' tr',
    subscribe rejectEmptyOpts acceptHandler acceptWsUrl "DAI-WETH" quietHandler
              connectingChannel [] = (Normal tt, ch', tr') /\
    _handleWebSocketMessage snapshotParser (mkMessage (Some "m")) ch' tr'
    = (Normal tt, ch', tr' ++ [CallOnSnapshot 1 "DAI-WETH" 7]).
Proof.
  destruct (subscribed_handler_receives_its_snapshot snapshotParser
              rejectEmptyOpts acceptHandler acceptWsUrl "DAI-WETH"
              quietHandler connectingChannel [] "m"
              (mkParserResult Snapshot 1 7)
              eq_refl eq_refl eq_refl eq_refl eq_refl eq_refl)
    as (result & ch' & tr' & Hsubscribe & Hresult & Hhandle).
  cbn in Hresult. subst result.
  exists ch', tr'. split; [exact Hsubscribe | exact Hhandle].
Defined.

Lemma channel_stays_coherent_witness :
  let ch' := fst (performAll failingParser rejectEmptyOpts
      acceptHandler acceptWsUrl
                             sampleActions newChannel []) in
  let tr' := snd (performAll failingParser rejectEmptyOpts
      acceptHandler acceptWsUrl
                             sampleActions newChannel []) in
  Forall (eventOf (_subscriptions ch')) tr' /\
  _apiEndpointUrl ch' = "ws://relayer.example/v0".
Proof.
  destruct (channel_stays_coherent failingParser rejectEmptyOpts
              acceptHandler acceptWsUrl rejectEmptyUrl
              "ws://relayer.example/v0" newChannel sampleActions
              eq_refl eq_refl) as (Htrace & Hurl & _).
  split; [exact Htrace | exact Hurl].
Defined.

Lemma subscriptions_are_never_removed_witness :
  at_index (_subscriptions
              (fst (performAll failingParser rejectEmptyOpts
                  acceptHandler acceptWsUrl
                               sampleActions quietSubscriptions []))) 1
  = Some (mkSubscription "DAI-WETH" quietHandler).
Proof.
  destruct (subscriptions_are_never_removed failingParser rejectEmptyOpts
              acceptHandler acceptWsUrl sampleActions quietSubscriptions [])
    as [_ Hstable].
  apply Hstable. reflexivity.
Defined.

Lemma client_is_never_replaced_witness :
  exists client',
    _clientIfExists
      (fst (performAll failingParser rejectEmptyOpts acceptHandler acceptWsUrl
                       sampleActions connectingChannel []))
    = Some client' /\
    onopenMessage client'
    = mkSubscribeMessage "subscribe" "orderbook" 0 "ZRX-WETH".
Proof.
  destruct (client_is_never_replaced failingParser rejectEmptyOpts
              acceptHandler acceptWsUrl sampleActions connectingChannel []
              (mkClient "ws://relayer.example/v0" CONNECTING
                 (mkSubscribeMessage "subscribe" "orderbook" 0 "ZRX-WETH"))
              eq_refl)
    as (_ & client' & Hclient & _ & Hmessage).
  exists client'. split; [exact Hclient | exact Hmessage].
Defined.

Lemma onclose_notifies_every_subscription_witness :
  onclose quietSubscriptions []
  = (Normal tt, quietSubscriptions,
     [CallOnClose 0 "ZRX-WETH"; CallOnClose 1 "DAI-WETH"]).
Proof.
  apply (onclose_notifies_every_subscription quietSubscriptions []
           quietSubscriptions_onClose).
Defined.

Lemma onerror_alerts_every_subscription_witness :
  onerror (Error "socket hang up") quietSubscriptions []
  = (Normal tt, quietSubscriptions,
     [CallOnError 0 "ZRX-WETH" (Error "socket hang up");
      CallOnError 1 "DAI-WETH" (Error "socket hang up")]).
Proof.
  apply (onerror_alerts_every_subscription (Error "socket hang up")
           quietSubscriptions [] quietSubscriptions_onError).
Defined.

Lemma subscribe_rejects_before_registering_witness :
  subscribe rejectEmptyOpts acceptHandler acceptWsUrl "" quietHandler
            quietSubscriptions []
  = (Thrown (Error "Expected subscriptionOpts to conform to schema"),
     quietSubscriptions, []).
Proof.
  apply (subscribe_rejects_before_registering rejectEmptyOpts
      acceptHandler acceptWsUrl
           "" quietHandler quietSubscriptions []).
  left. reflexivity.
Defined.

Lemma pendingChannel_coherent : coherent pendingChannel [].
Proof.
  split; [constructor |]. cbn.
  split; [reflexivity |]. split; [reflexivity |].
  split; [reflexivity |]. split; [reflexivity |].
  exists (mkSubscription "ZRX-WETH" quietHandler). split; reflexivity.
Defined.

Lemma no_late_announcement_witness :
  ~ In (Send (mkSubscribeMessage "subscribe" "orderbook" 1 "DAI-WETH"))
       (snd (performAll failingParser rejectEmptyOpts acceptHandler acceptWsUrl
                        sampleActions pendingChannel [])).
Proof.
  intros Hin.
  destruct (no_late_announcement failingParser rejectEmptyOpts
      acceptHandler acceptWsUrl
              sampleActions pendingChannel [] pendingChannel_coherent)
    as (new & Htrace & Hframes).
  rewrite Htrace in Hin. cbn [app] in Hin.
  destruct (Hframes _ Hin) as [H | H]; cbn in H; [discriminate H |].
  apply H. reflexivity.
Defined.

End ChannelLifeFacts.

(** ** The layout of what [getOrderHash] hashes *)

Module LibOrderLayoutFacts.

Import Keccak Abi LibOrder AbiFacts LibOrderFacts.

(** X18. The packed order fields can be read back: two valid orders have
    the same packed fields exactly when their ten fixed-width fields are
    equal and their asset data have equal digests. Nothing about
    [keccak256] is assumed; the widths alone keep the fields apart. *)
Theorem packed_fields_determine_the_fields (o1 o2 : Order) :
  valid_order o1 -> valid_order o2 ->
  encodePacked (orderFields o1) = encodePacked (orderFields o2) <->
  makerAddress o1 = makerAddress o2 /\
  takerAddress o1 = takerAddress o2 /\
  feeRecipientAddress o1 = feeRecipientAddress o2 /\
  senderAddress o1 = senderAddress o2 /\
  makerAssetAmount o1 = makerAssetAmount o2 /\
  takerAssetAmount o1 = takerAssetAmount o2 /\
  makerFee o1 = makerFee o2 /\
  takerFee o1 = takerFee o2 /\
  expirationTimeSeconds o1 = expirationTimeSeconds o2 /\
  salt o1 = salt o2 /\
  keccak256 (makerAssetData o1) = keccak256 (makerAssetData o2) /\
  keccak256 (takerAssetData o1) = keccak256 (takerAssetData o2).
Proof.
  intros (A1 & A2 & A3 & A4 & A5 & A6 & A7 & A8 & A9 & A10)
         (B1 & B2 & B3 & B4 & B5 & B6 & B7 & B8 & B9 & B10).
  rewrite !orderFields_packed. unfold fixedFieldEncoding.
  rewrite <- !app_assoc. split.
  - intros Heq.
    split_slot Heq E1. split_slot Heq E2. split_slot Heq E3.
    split_slot Heq E4. split_slot Heq E5. split_slot Heq E6.
    split_slot Heq E7. split_slot Heq E8. split_slot Heq E9.
    split_slot Heq E10. split_slot Heq E11.
    repeat apply conj.
    + exact (address_inj _ _ A1 B1 E1).
    + exact (address_inj _ _ A2 B2 E2).
    + exact (address_inj _ _ A3 B3 E3).
    + exact (address_inj _ _ A4 B4 E4).
    + exact (uint256_inj _ _ A5 B5 E5).
    + exact (uint256_inj _ _ A6 B6 E6).
    + exact (uint256_inj _ _ A7 B7 E7).
    + exact (uint256_inj _ _ A8 B8 E8).
    + exact (uint256_inj _ _ A9 B9 E9).
    + exact (uint256_inj _ _ A10 B10 E10).
    + exact E11.
    + exact Heq.
  - intros (E1 & E2 & E3 & E4 & E5 & E6 & E7 & E8 & E9 & E10 & E11 & E12).
    rewrite E1, E2, E3, E4, E5, E6, E7, E8, E9, E10, E11, E12.
    reflexivity.
Qed.

Lemma valid_resaltedOrder : valid_order resaltedOrder.
Proof.
  unfold valid_order, is_address, is_uint256.
  repeat apply conj; vm_compute; first [discriminate | reflexivity].
Defined.

Lemma packed_fields_determine_the_fields_witness :
  encodePacked (orderFields sampleOrder)
  <> encodePacked (orderFields resaltedOrder).
Proof.
  destruct (packed_fields_determine_the_fields sampleOrder resaltedOrder
              valid_sampleOrder valid_resaltedOrder) as [Hfields _].
  intros Heq.
  destruct (Hfields Heq) as (_ & _ & _ & _ & _ & _ & _ & _ & _ & Hsalt & _).
  vm_compute in Hsalt. discriminate Hsalt.
Defined.

(** X19. What the outer [keccak256] of [getOrderHash] hashes is 128 bytes
    long, four digests of 32 bytes: the domain schema hash, the digest of
    the contract's address, the order schema hash and the digest of the
    packed order fields, so that the contract enters by the second only
    and the order by the fourth only. *)
Theorem outer_stream_layout (o : Order) (c : Context) :
  let stream := encodePacked (outerArguments (this c) o) in
  fst (getOrderHash o c) = keccak256 stream /\
  length stream = 128%nat /\
  slice 0 32 stream = DOMAIN_SEPARATOR_SCHEMA_HASH /\
  slice 32 32 stream = keccak256 (be_bytes 20 (this c)) /\
  slice 64 32 stream = ORDER_SCHEMA_HASH /\
  slice 96 32 stream = keccak256 (encodePacked (orderFields o)).
Proof.
  assert (Hlayout : forall v o0,
            let s := encodePacked (outerArguments v o0) in
            length s = 128%nat /\
            slice 0 32 s = DOMAIN_SEPARATOR_SCHEMA_HASH /\
            slice 32 32 s = keccak256 (be_bytes 20 v) /\
            slice 64 32 s = ORDER_SCHEMA_HASH /\
            slice 96 32 s = keccak256 (encodePacked (orderFields o0))).
  { intros v o0. cbn zeta. rewrite outerArguments_packed.
    assert (Hd : length DOMAIN_SEPARATOR_SCHEMA_HASH = 32%nat)
      by apply length_keccak256.
    assert (Hs : length ORDER_SCHEMA_HASH = 32%nat)
      by apply length_keccak256.
    pose proof (length_keccak256 (be_bytes 20 v)) as Hv.
    pose proof (length_keccak256 (encodePacked (orderFields o0))) as Hf.
    repeat apply conj.
    - rewrite !length_app, Hd, Hs, Hv, Hf. reflexivity.
    - exact (slice_here _ _ 32 Hd).
    - rewrite (slice_skip _ _ 32 32 32 Hd) by lia. cbn [Nat.sub].
      exact (slice_here _ _ 32 Hv).
    - rewrite (slice_skip _ _ 32 64 32 Hd) by lia. cbn [Nat.sub].
      rewrite (slice_skip _ _ 32 32 32 Hv) by lia. cbn [Nat.sub].
      exact (slice_here _ _ 32 Hs).
    - rewrite (slice_skip _ _ 32 96 32 Hd) by lia. cbn [Nat.sub].
      rewrite (slice_skip _ _ 32 64 32 Hv) by lia. cbn [Nat.sub].
      rewrite (slice_skip _ _ 32 32 32 Hs) by lia. cbn [Nat.sub].
      exact (slice_all _ 32 Hf). }
  cbn zeta. rewrite getOrderHash_run. cbn [fst].
  destruct (Hlayout (this c) o) as (Hlen & H0 & H1 & H2 & H3).
  split; [reflexivity |]. split; [exact Hlen |]. split; [exact H0 |].
  split; [exact H1 |]. split; [exact H2 | exact H3].
Qed.

End LibOrderLayoutFacts.
